(** * helmify: value extraction for ConfigMap and StatefulSet processors

    A shallow embedding of [pkg/processor/configmap/configmap.go] and
    [pkg/processor/statefulset/statefulset.go].

    Go maps that the code only reads and writes by key (helmify.Values)
    are finite maps; Go maps that the code ranges over (ConfigMap data,
    decoded YAML payloads, container resource lists) are association
    lists whose order is the iteration order of one run.  Values are
    mutated in place in the source, so every function threads the
    values tree through and hands it back also when it fails. *)

From Stdlib Require Import String Ascii ZArith List Permutation Lia.
From stdpp Require Import gmap strings list fin_maps.

Set Warnings "-register-all".

Open Scope string_scope.
Open Scope Z_scope.

(** ** Results, errors and diagnostics *)

(** A Go [error] is carried by its message. *)
Definition error := string.

Inductive result (A : Type) : Type :=
| Ok (a : A)
| Err (e : error).
Arguments Ok {A} a.
Arguments Err {A} e.

Definition isOk {A} (r : result A) : bool :=
  match r with Ok _ => true | Err _ => false end.

(** [errors.Wrap(err, msg)] *)
Definition errors_Wrap (e : error) (msg : string) : error := msg ++ ": " ++ e.

(** One logrus entry: an error entry carries the error it was built
    with, a warning only its text. *)
Inductive logEntry : Type :=
| LogError (e : error) (msg : string)
| LogWarn (msg : string).

(** ** Go's [strings] package, at the separators the code uses *)

Module strings.

Definition HasSuffix (s suffix : string) : bool :=
  (String.length suffix <=? String.length s)%nat &&
  String.eqb
    (substring (String.length s - String.length suffix) (String.length suffix) s)
    suffix.

Definition TrimSuffix (s suffix : string) : string :=
  if HasSuffix s suffix
  then substring 0 (String.length s - String.length suffix) s
  else s.

(** [strings.Split(s, sep)] for a one-byte separator: always at least
    one piece, one more than the occurrences of [sep]. *)
Fixpoint Split (s : string) (sep : ascii) : list string :=
  match s with
  | EmptyString => [EmptyString]
  | String c s' =>
      if Ascii.eqb c sep then EmptyString :: Split s' sep
      else match Split s' sep with
           | p :: ps => String c p :: ps
           | [] => [String c EmptyString]
           end
  end.

Definition Join (elems : list string) (sep : string) : string :=
  String.concat sep elems.

(** [strings.LastIndex(s, substr)] for a one-byte [substr]: the byte
    offset of its last occurrence, -1 when there is none. *)
Fixpoint LastIndex (s : string) (c : ascii) : Z :=
  match s with
  | EmptyString => -1
  | String a s' =>
      let r := LastIndex s' c in
      if 0 <=? r then r + 1
      else if Ascii.eqb a c then 0 else -1
  end.

(** [strings.ReplaceAll(s, old, empty)] for a one-byte [old]. *)
Fixpoint RemoveAll (s : string) (old : ascii) : string :=
  match s with
  | EmptyString => EmptyString
  | String a s' =>
      if Ascii.eqb a old then RemoveAll s' old else String a (RemoveAll s' old)
  end.

End strings.

(** Slices of a string: [s[:i]] and [s[i:]]. *)
Definition slice_to (s : string) (i : Z) : string :=
  substring 0 (Z.to_nat i) s.
Definition slice_from (s : string) (i : Z) : string :=
  substring (Z.to_nat i) (String.length s - Z.to_nat i) s.

(** [fmt]'s [%v] of a [[]string]. *)
Definition fmt_v (l : list string) : string :=
  "[" ++ String.concat " " l ++ "]".

Definition nl : ascii := "010"%char.
Definition NL : string := String nl EmptyString.
Definition DQ : string := String "034"%char EmptyString.

(** ** Decoded content and the values tree *)

(** The scalars a decoded document holds ([string], [bool], [float64],
    [int64]); a float is carried by its IEEE-754 bit pattern, the code
    never computes with it. *)
Inductive scalar : Type :=
| SString (s : string)
| SBool (b : bool)
| SFloat (bits : Z)
| SInt (z : Z).

#[global] Instance scalar_eq_dec : EqDecision scalar.
Proof. solve_decision. Defined.

(** helmify.Values is [map[string]interface{}]: a leaf, or a nested
    map reached by key. *)
Inductive tree : Type :=
| Leaf (s : scalar)
| Node (m : gmap string tree).

Abbreviation Values := (gmap string tree).

(** The payload [yaml.Unmarshal] hands to [parseConfig]: the dynamic
    types of its type switch.  A mapping is listed in the order one run
    ranges over it. *)
Inductive value : Type :=
| VScalar (s : scalar)
| VSeq (l : list value)
| VMap (m : list (string * value))
| VMapI (m : list (value * value))
| VNil.

(** Reading a path, as a template's [.Values.a.b.c] does. *)
Fixpoint lookup_path (fields : list string) (m : Values) : option tree :=
  match fields with
  | [] => Some (Node m)
  | f :: rest =>
      match m !! f with
      | None => None
      | Some t =>
          match rest, t with
          | [], _ => Some t
          | _, Node sub => lookup_path rest sub
          | _, Leaf _ => None
          end
      end
  end.

(** [unstructured.SetNestedField(obj, value, fields...)]: walks the
    existing maps, creates the missing ones, refuses to walk through
    anything that is not a map, and overwrites whatever the last field
    held.  Nothing is written when it fails; with no field at all the
    Go code panics on [fields[:len(fields)-1]], which is reported here
    as an error as well. *)
Fixpoint SetNestedField_at (seen : list string) (obj : Values) (v : tree)
    (fields : list string) : result Values :=
  match fields with
  | [] => Err "panic: slice bounds out of range"
  | [f] => Ok (<[f := v]> obj)
  | f :: rest =>
      match obj !! f with
      | Some (Node sub) =>
          match SetNestedField_at (seen ++ [f])%list sub v rest with
          | Ok sub' => Ok (<[f := Node sub']> obj)
          | Err e => Err e
          end
      | Some (Leaf _) =>
          Err ("value cannot be set because ." ++ strings.Join (seen ++ [f])%list "."
               ++ " is not a map[string]interface{}")
      | None =>
          match SetNestedField_at (seen ++ [f])%list ∅ v rest with
          | Ok sub' => Ok (<[f := Node sub']> obj)
          | Err e => Err e
          end
      end
  end.

Definition SetNestedField (obj : Values) (v : tree) (fields : list string)
    : result Values :=
  SetNestedField_at [] obj v fields.

(** The placeholder of a path: [{{ .Values.<dot-joined path> }}]. *)
Definition placeholder (name : list string) : string :=
  "{{ .Values." ++ strings.Join name "." ++ " }}".

(** ** The normaliser *)

(** Modelled from the spec: the lower-camel-case normalisation of path
    segments (§3), which the code takes from the strcase package.  Letters
    and digits are kept, every other byte is dropped; the first byte is
    lowered, a letter that follows a delimiter ([_], [-], [.], space) or
    a digit is raised, and a capital that follows a capital is lowered. *)
Module strcase.

Definition isCap (v : ascii) : bool :=
  (65 <=? N_of_ascii v)%N && (N_of_ascii v <=? 90)%N.
Definition isLow (v : ascii) : bool :=
  (97 <=? N_of_ascii v)%N && (N_of_ascii v <=? 122)%N.
Definition isNum (v : ascii) : bool :=
  (48 <=? N_of_ascii v)%N && (N_of_ascii v <=? 57)%N.
Definition isDelim (v : ascii) : bool :=
  Ascii.eqb v "_" || Ascii.eqb v " " || Ascii.eqb v "-" || Ascii.eqb v ".".
Definition upper (v : ascii) : ascii := ascii_of_N (N_of_ascii v - 32).
Definition lower (v : ascii) : ascii := ascii_of_N (N_of_ascii v + 32).

Fixpoint toCamel_loop (s : string) (first capNext prevIsCap : bool) : string :=
  match s with
  | EmptyString => EmptyString
  | String v s' =>
      let v' :=
        if capNext then (if isLow v then upper v else v)
        else if first then (if isCap v then lower v else v)
        else if prevIsCap && isCap v then lower v
        else v in
      if isCap v || isLow v then String v' (toCamel_loop s' false false (isCap v))
      else if isNum v then String v' (toCamel_loop s' false true (isCap v))
      else toCamel_loop s' false (isDelim v) (isCap v)
  end.

Definition ToLowerCamel (s : string) : string :=
  toCamel_loop s true false false.

End strcase.

(** ** Resources and what a processor returns *)

Record GroupVersionKind : Type := {
  Group : string;
  Version : string;
  Kind : string
}.

#[global] Instance GroupVersionKind_eq_dec : EqDecision GroupVersionKind.
Proof. solve_decision. Defined.

(** An [unstructured.Unstructured]: the decoded object and the
    discriminator [obj.GroupVersionKind()] reads from it. *)
Record Unstructured : Type := {
  gvk : GroupVersionKind;
  Object : list (string * value)
}.

Fixpoint assoc {A : Type} (k : string) (m : list (string * A)) : option A :=
  match m with
  | [] => None
  | (k', v) :: m' => if String.eqb k k' then Some v else assoc k m'
  end.

(** [unstructured.NestedBool(obj, field)] with its error dropped, as
    the callers do: present only when the field holds a bool. *)
Definition NestedBool (obj : list (string * value)) (field : string) : option bool :=
  match assoc field obj with
  | Some (VScalar (SBool b)) => Some b
  | _ => None
  end.

Fixpoint stringMap (m : list (string * value)) : option (list (string * string)) :=
  match m with
  | [] => Some []
  | (k, VScalar (SString str)) :: m' =>
      match stringMap m' with
      | Some strMap => Some ((k, str) :: strMap)
      | None => None
      end
  | _ => None
  end.

(** [unstructured.NestedStringMap(obj, field)] with its error dropped:
    present only when the field is a map whose values are all strings. *)
Definition NestedStringMap (obj : list (string * value)) (field : string)
    : option (list (string * string)) :=
  match assoc field obj with
  | Some (VMap m) => stringMap m
  | _ => None
  end.

Definition ofStringMap (m : list (string * string)) : value :=
  VMap (map (fun kv => (fst kv, VScalar (SString (snd kv)))) m).

(** The [result] struct of configmap.go. *)
Record configMapResult : Type := {
  cm_name : string;
  cm_data : string;
  cm_values : Values
}.

(** What a processor's [Process] returns, [(bool, helmify.Template,
    error)], together with the log entries it wrote. *)
Record outcome (T : Type) : Type := {
  processed : bool;
  template : option T;
  err : option error;
  logs : list logEntry
}.
Arguments processed {T} o.
Arguments template {T} o.
Arguments err {T} o.
Arguments logs {T} o.

Definition skipped {T : Type} : outcome T :=
  {| processed := false; template := None; err := None; logs := [] |}.
Definition rejected {T : Type} (e : error) (l : list logEntry) : outcome T :=
  {| processed := true; template := None; err := Some e; logs := l |}.
Definition accepted {T : Type} (t : T) (l : list logEntry) : outcome T :=
  {| processed := true; template := Some t; err := None; logs := l |}.

Definition configMapGVC : GroupVersionKind :=
  {| Group := EmptyString; Version := "v1"; Kind := "ConfigMap" |}.

(** *** The typed objects of statefulset.go

    Of the Kubernetes structs only the fields the processor reads or
    writes are kept.  A pointer that may be nil is an [option]. *)

Record EnvVarSource : Type := {
  SecretKeyRef : option string;
  ConfigMapKeyRef : option string
}.

Record EnvVar : Type := {
  env_Name : string;
  env_Value : string;
  ValueFrom : option EnvVarSource
}.

Record EnvFromSource : Type := {
  SecretRef : option string;
  ConfigMapRef : option string
}.

(** A [resource.Quantity], by the text [ToUnstructured] gives. *)
Definition Quantity := string.

Record Container : Type := {
  c_Name : string;
  c_Image : string;
  c_Env : list EnvVar;
  c_EnvFrom : list EnvFromSource;
  c_Requests : list (string * Quantity);
  c_Limits : list (string * Quantity)
}.

Record Volume : Type := {
  vol_Name : string;
  vol_ConfigMap : option string;
  vol_Secret : option string;
  vol_PersistentVolumeClaim : option string
}.

Record PodSpec : Type := {
  Containers : list Container;
  Volumes : list Volume;
  ServiceAccountName : string;
  ImagePullSecrets : list string
}.

Record StatefulSet : Type := {
  Replicas : option Z;
  MatchLabels : list (string * string);
  MatchExpressions : option (list value);
  TemplateLabels : list (string * string);
  TemplateAnnotations : list (string * string);
  TemplateSpec : PodSpec;
  VolumeClaimTemplates : list value
}.

(** The interface [helmify.AppMetadata]. *)
Record AppMetadata : Type := {
  TrimName : string -> string;
  TemplatedName : string -> string;
  ChartName : string
}.

(** The [result] struct of statefulset.go. *)
Record statefulsetData : Type := {
  d_Meta : string;
  d_Replicas : string;
  d_Selector : string;
  d_PodLabels : string;
  d_PodAnnotations : string;
  d_Spec : string;
  d_VolumeClaimTemplates : string
}.

Record statefulsetResult : Type := {
  st_data : statefulsetData;
  st_values : Values
}.

Definition statefulsetGVC : GroupVersionKind :=
  {| Group := "apps"; Version := "v1"; Kind := "StatefulSet" |}.



(** Modelled from the spec: [Values.Merge] of pkg/helmify, which is not
    among the sources (§4.3).  Two maps under one key are merged key by
    key, two equal scalars are kept, and two different scalars or a
    scalar against a map fail with the path of the conflict. *)
Fixpoint unify (path : list string) (t1 t2 : tree) {struct t1} : result tree :=
  match t1, t2 with
  | Leaf a, Leaf b =>
      if decide (a = b) then Ok t1
      else Err ("conflicting values at " ++ fmt_v path)
  | Node m1, Node m2 =>
      match
        map_fold
          (fun k t1' (acc : result Values) =>
             match acc with
             | Err e => Err e
             | Ok m =>
                 match m2 !! k with
                 | None => Ok m
                 | Some t2' =>
                     match unify (path ++ [k])%list t1' t2' with
                     | Ok t => Ok (<[k := t]> m)
                     | Err e => Err e
                     end
                 end
             end)
          (Ok (m1 ∪ m2)) m1
      with
      | Ok m => Ok (Node m)
      | Err e => Err e
      end
  | _, _ => Err ("conflicting values at " ++ fmt_v path)
  end.

Definition Merge (v values : Values) : result Values :=
  match unify [] (Node v) (Node values) with
  | Ok (Node m) => Ok m
  | Ok (Leaf _) => Err "unable to merge helm values"
  | Err e => Err (errors_Wrap e "unable to merge helm values")
  end.

Section Processors.

(** [strcase.ToLowerCamel], the normalisation of path segments. *)
Variable ToLowerCamel : string -> string.

Definition toCamelCase (name : list string) : list string :=
  map ToLowerCamel name.

(** Modelled from the spec: [Values.Add] of pkg/helmify, which is not
    among the sources.  It normalises every segment of the path, sets
    the value there (intermediate levels are created, a scalar on the
    way is an error, the last segment is overwritten) and returns the
    placeholder that refers to the normalised path. *)
Definition Add (values : Values) (v : scalar) (name : list string)
    : result string * Values :=
  let name := toCamelCase name in
  match SetNestedField values (Leaf v) name with
  | Ok values' => (Ok (placeholder name), values')
  | Err e => (Err (errors_Wrap e ("unable to set value: " ++ fmt_v name)), values)
  end.

(** *** configmap.go *)

(** The loop of [parseProperties]; [res] is the string builder. *)
Fixpoint parseProperties_loop (lines : list string) (path : list string)
    (values : Values) (res : string) : result string * Values :=
  match lines with
  | [] => (Ok res, values)
  | line :: lines' =>
      match strings.Split line "=" with
      | [propName; propVal] =>
          let propNamePath := strings.Split propName "." in
          match Add values (SString propVal) (path ++ propNamePath)%list with
          | (Ok templatedVal, values') =>
              parseProperties_loop lines' path values'
                (res ++ propName ++ "=" ++ templatedVal ++ NL)
          | (Err e, values') => (Err e, values')
          end
      | _ =>
          (Err ("wrong property format in " ++ fmt_v path ++ ": " ++ line), values)
      end
  end.

Definition parseProperties (properties : string) (path : list string)
    (values : Values) : result string * Values :=
  parseProperties_loop
    (strings.Split (strings.TrimSuffix properties NL) nl) path values EmptyString.

(** What [parseConfig] leaves behind: the rewritten mapping (the source
    assigns into [config] while it ranges over it), the values tree and
    the log entries in the order they were written. *)
Definition extracted (A : Type) : Type := (A * Values * list logEntry)%type.

Definition isDiscriminator (k : string) : bool :=
  String.eqb k "kind" || String.eqb k "apiVersion".

(** [for k, v := range config { ... }]: the body is run on every entry
    in turn, the values going from one entry to the next. *)
Fixpoint rangeConfig (body : string -> value -> Values -> extracted value)
    (config : list (string * value)) (values : Values)
    : extracted (list (string * value)) :=
  match config with
  | [] => ([], values, [])
  | (k, v) :: config' =>
      let '(v', values1, logs1) := body k v values in
      let '(config'', values2, logs2) := rangeConfig body config' values1 in
      ((k, v') :: config'', values2, (logs1 ++ logs2)%list)
  end.

(** The body of the loop of [parseConfig]: the type switch on the entry
    [k], [v].  A [map[interface{}]interface{}] never passes the
    assertion to [map[string]interface{}], so that case only warns. *)
Fixpoint parseConfig_entry (k : string) (v : value) (values : Values)
    (path : list string) {struct v} : extracted value :=
  match v with
  | VScalar s =>
      if isDiscriminator k then (v, values, [])
      else
        match Add values s (path ++ [k])%list with
        | (Ok templated, values') => (VScalar (SString templated), values', [])
        | (Err e, values') => (v, values', [LogError e EmptyString])
        end
  | VSeq _ => (v, values, [LogWarn "configmap: arrays not supported"])
  | VMap t =>
      let '(t', values', logs) :=
        rangeConfig
          (fun k' v' values => parseConfig_entry k' v' values (path ++ [k])%list)
          t values in
      (VMap t', values', logs)
  | VMapI _ =>
      (v, values, [LogWarn "configmap: unable to cast to map[string]interface{}"])
  | VNil => (v, values, [LogWarn "configmap: unknown type <nil>"])
  end.

Definition parseConfig (config : list (string * value)) (values : Values)
    (path : list string) : extracted (list (string * value)) :=
  rangeConfig (fun k v values => parseConfig_entry k v values path) config values.

(** [sigs.k8s.io/yaml]: decoding a text into a mapping and back. *)
Variable yaml_Unmarshal : string -> result (list (string * value)).
Variable yaml_Marshal : list (string * value) -> result string.

Definition parseYaml (value : string) (path : list string) (values : Values)
    : extracted (result string) :=
  match yaml_Unmarshal value with
  | Err e =>
      (Err (errors_Wrap e ("unable to unmarshal configmap " ++ fmt_v path)), values, [])
  | Ok config =>
      let '(config', values', logs) := parseConfig config values path in
      match yaml_Marshal config' with
      | Err e =>
          (Err (errors_Wrap e ("unable to marshal configmap " ++ fmt_v path)), values', logs)
      | Ok confBytes => (Ok confBytes, values', logs)
      end
  end.

Definition unableToProcess (e : error) (valuesNamePath : list string) : logEntry :=
  LogError e ("unable to process configmap data: " ++ fmt_v valuesNamePath).

(** One iteration of the loop of [parseMapData]: what [data[key]] holds
    afterwards, the values and the log entries. *)
Definition parseMapData_entry (key value configName : string) (values : Values)
    : extracted string :=
  let valuesNamePath := [configName; key] in
  if strings.HasSuffix key ".yaml" || strings.HasSuffix key ".yml" then
    match parseYaml value valuesNamePath values with
    | (Err e, values', logs) => (value, values', (logs ++ [unableToProcess e valuesNamePath])%list)
    | (Ok templated, values', logs) => (templated, values', logs)
    end
  else if strings.HasSuffix key ".properties" then
    match parseProperties value valuesNamePath values with
    | (Err e, values') => (value, values', [unableToProcess e valuesNamePath])
    | (Ok templated, values') => (templated, values', [])
    end
  else
    match Add values (SString value) valuesNamePath with
    | (Err e, values') => (value, values', [unableToProcess e valuesNamePath])
    | (Ok templatedVal, values') => (templatedVal, values', [])
    end.

Fixpoint parseMapData_loop (data : list (string * string)) (configName : string)
    (values : Values) : extracted (list (string * string)) :=
  match data with
  | [] => ([], values, [])
  | (key, value) :: data' =>
      let '(value', values1, logs1) := parseMapData_entry key value configName values in
      let '(data'', values2, logs2) := parseMapData_loop data' configName values1 in
      ((key, value') :: data'', values2, (logs1 ++ logs2)%list)
  end.

Definition parseMapData (data : list (string * string)) (configName : string)
    : extracted (list (string * string)) :=
  parseMapData_loop data configName ∅.

(** [yamlformat.Marshal(object, indent)] of pkg/yaml and
    [processor.ProcessMetadata], both outside the sources: serialising a
    decoded object, and the name and metadata block of a resource. *)
Variable yamlformat_Marshal : value -> nat -> result string.

Variable ProcessMetadata : Unstructured -> result (string * string).

(** The [immutable] and [binaryData] parts of [configMap.Process]. *)
Definition appendImmutable (obj : Unstructured) (template : string) : result string :=
  match NestedBool (Object obj) "immutable" with
  | Some immutable =>
      match yamlformat_Marshal (VMap [("immutable", VScalar (SBool immutable))]) 0 with
      | Err e => Err e
      | Ok immutableStr => Ok (template ++ immutableStr ++ NL)
      end
  | None => Ok template
  end.

Definition appendBinaryData (obj : Unstructured) (template : string) : result string :=
  match NestedStringMap (Object obj) "binaryData" with
  | Some binaryData =>
      match yamlformat_Marshal (VMap [("binaryData", ofStringMap binaryData)]) 0 with
      | Err e => Err e
      | Ok binaryDataStr => Ok (template ++ binaryDataStr ++ NL)
      end
  | None => Ok template
  end.

Definition configMap_Process (obj : Unstructured) : outcome configMapResult :=
  if negb (bool_decide (gvk obj = configMapGVC)) then skipped
  else
    match ProcessMetadata obj with
    | Err e => rejected e []
    | Ok (name, template) =>
        match appendImmutable obj template with
        | Err e => rejected e []
        | Ok template =>
            match appendBinaryData obj template with
            | Err e => rejected e []
            | Ok template =>
                match NestedStringMap (Object obj) "data" with
                | Some data =>
                    let '(data, values, logs) := parseMapData data name in
                    match yamlformat_Marshal (VMap [("data", ofStringMap data)]) 0 with
                    | Err e => rejected e logs
                    | Ok dataStr =>
                        let dataStr := strings.RemoveAll dataStr "'" in
                        accepted {| cm_name := name ++ ".yaml";
                                    cm_data := template ++ dataStr;
                                    cm_values := values |} logs
                    end
                | None =>
                    accepted {| cm_name := name ++ ".yaml";
                                cm_data := template;
                                cm_values := ∅ |} []
                end
            end
        end
    end.

(** *** statefulset.go *)

(** [cluster.DomainEnv] and [cluster.DomainKey], constants of
    pkg/cluster. *)
Variable DomainEnv DomainKey : string.

(** The steps of [statefulset.Process] that leave the sources:
    decoding the object, its metadata block, re-indenting a text, and
    lines 133-166, which turn the processed pod spec into YAML (each
    container whose values hold resources gets its resources block
    replaced by one [toYaml] placeholder). *)
Variable FromUnstructured : Unstructured -> result StatefulSet.
Variable ProcessObjMeta : AppMetadata -> Unstructured -> result string.
Variable GetName : Unstructured -> string.
Variable yamlformat_Indent : string -> nat -> string.
Variable marshalPodSpec : string -> Values -> PodSpec -> result string.

Definition processReplicas (name : string) (statefulset : StatefulSet)
    (values : Values) : result string * Values :=
  match Replicas statefulset with
  | None => (Ok EmptyString, values)
  | Some replicas =>
      match Add values (SInt replicas) [name; "replicas"] with
      | (Err e, values') => (Err e, values')
      | (Ok replicasTpl, values') =>
          match yamlformat_Marshal (VMap [("replicas", VScalar (SString replicasTpl))]) 2 with
          | Err e => (Err e, values')
          | Ok replicas => (Ok (strings.RemoveAll replicas "'"), values')
          end
      end
  end.

(** The loops of [processPodContainer] over [c.Resources.Requests] and
    [c.Resources.Limits]. *)
Fixpoint setResources (values : Values) (name containerName kind : string)
    (l : list (string * Quantity)) : result Values :=
  match l with
  | [] => Ok values
  | (k, v) :: l' =>
      match SetNestedField values (Leaf (SString v))
              [name; containerName; "resources"; kind; k] with
      | Err e => Err (errors_Wrap e "unable to set container resources value")
      | Ok values' => setResources values' name containerName kind l'
      end
  end.

Definition templateEnvVar (appMeta : AppMetadata) (e : EnvVar) : EnvVar :=
  {| env_Name := env_Name e;
     env_Value := env_Value e;
     ValueFrom :=
       option_map
         (fun src =>
            {| SecretKeyRef := option_map (TemplatedName appMeta) (SecretKeyRef src);
               ConfigMapKeyRef := option_map (TemplatedName appMeta) (ConfigMapKeyRef src) |})
         (ValueFrom e) |}.

Definition templateEnvFrom (appMeta : AppMetadata) (e : EnvFromSource) : EnvFromSource :=
  {| SecretRef := option_map (TemplatedName appMeta) (SecretRef e);
     ConfigMapRef := option_map (TemplatedName appMeta) (ConfigMapRef e) |}.

Definition imageTemplate (name containerName : string) : string :=
  "{{ .Values." ++ name ++ "." ++ containerName ++ ".image.repository }}:{{ .Values."
  ++ name ++ "." ++ containerName ++ ".image.tag | default .Chart.AppVersion }}".

Definition processPodContainer (name : string) (appMeta : AppMetadata)
    (c : Container) (values : Values) : result Container * Values :=
  let index := strings.LastIndex (c_Image c) ":" in
  if index <? 0 then (Err ("wrong image format: " ++ c_Image c), values)
  else
    let repo := slice_to (c_Image c) index in
    let tag := slice_from (c_Image c) (index + 1) in
    let containerName := ToLowerCamel (c_Name c) in
    match SetNestedField values (Leaf (SString repo))
            [name; containerName; "image"; "repository"] with
    | Err e => (Err (errors_Wrap e "unable to set statefulset value field"), values)
    | Ok values1 =>
        match SetNestedField values1 (Leaf (SString tag))
                [name; containerName; "image"; "tag"] with
        | Err e => (Err (errors_Wrap e "unable to set statefulset value field"), values1)
        | Ok values2 =>
            let env :=
              (map (templateEnvVar appMeta) (c_Env c)
               ++ [{| env_Name := DomainEnv;
                      env_Value := "{{ .Values." ++ DomainKey ++ " }}";
                      ValueFrom := None |}])%list in
            let c' :=
              {| c_Name := c_Name c;
                 c_Image := imageTemplate name containerName;
                 c_Env := env;
                 c_EnvFrom := map (templateEnvFrom appMeta) (c_EnvFrom c);
                 c_Requests := c_Requests c;
                 c_Limits := c_Limits c |} in
            match setResources values2 name containerName "requests" (c_Requests c) with
            | Err e => (Err e, values2)
            | Ok values3 =>
                match setResources values3 name containerName "limits" (c_Limits c) with
                | Err e => (Err e, values3)
                | Ok values4 => (Ok c', values4)
                end
            end
        end
    end.

(** The first loop of [processPodSpec]. *)
Fixpoint processContainers (name : string) (appMeta : AppMetadata)
    (cs : list Container) (values : Values) : result (list Container * Values) :=
  match cs with
  | [] => Ok ([], values)
  | c :: cs' =>
      match processPodContainer name appMeta c values with
      | (Err e, _) => Err e
      | (Ok processed, values') =>
          match processContainers name appMeta cs' values' with
          | Err e => Err e
          | Ok (cs'', values'') => Ok (processed :: cs'', values'')
          end
      end
  end.

Definition templateVolume (appMeta : AppMetadata) (v : Volume) : Volume :=
  {| vol_Name := vol_Name v;
     vol_ConfigMap := option_map (TemplatedName appMeta) (vol_ConfigMap v);
     vol_Secret := option_map (TemplatedName appMeta) (vol_Secret v);
     vol_PersistentVolumeClaim := vol_PersistentVolumeClaim v |}.

Definition processPodSpec (name : string) (appMeta : AppMetadata) (pod : PodSpec)
    : result (Values * PodSpec) :=
  match processContainers name appMeta (Containers pod) ∅ with
  | Err e => Err e
  | Ok (containers, values) =>
      Ok (values,
          {| Containers := containers;
             Volumes := map (templateVolume appMeta) (Volumes pod);
             ServiceAccountName := TemplatedName appMeta (ServiceAccountName pod);
             ImagePullSecrets := map (TemplatedName appMeta) (ImagePullSecrets pod) |})
  end.

(** "replace PVC to templated name" *)
Definition templatePVC (appMeta : AppMetadata) (pod : PodSpec) : PodSpec :=
  {| Containers := Containers pod;
     Volumes :=
       map (fun vol =>
              {| vol_Name := vol_Name vol;
                 vol_ConfigMap := vol_ConfigMap vol;
                 vol_Secret := vol_Secret vol;
                 vol_PersistentVolumeClaim :=
                   option_map (TemplatedName appMeta) (vol_PersistentVolumeClaim vol) |})
           (Volumes pod);
     ServiceAccountName := ServiceAccountName pod;
     ImagePullSecrets := ImagePullSecrets pod |}.

(** [strings.Trim(s, " \n")] *)
Definition inCutset (c : ascii) : bool := Ascii.eqb c " " || Ascii.eqb c nl.

Fixpoint trimLeft (s : string) : string :=
  match s with
  | String c s' => if inCutset c then trimLeft s' else s
  | EmptyString => EmptyString
  end.

Fixpoint trimRight (s : string) : string :=
  match s with
  | EmptyString => EmptyString
  | String c s' =>
      match trimRight s' with
      | EmptyString => if inCutset c then EmptyString else String c EmptyString
      | t => String c t
      end
  end.

Definition selectorTempl (matchLabels chartName matchExpr : string) : string :=
  matchLabels ++ NL ++ "{{- include " ++ DQ ++ chartName
  ++ ".selectorLabels" ++ DQ ++ " . | nindent 6 }}" ++ NL ++ matchExpr.

Definition Trim (s : string) : string := trimRight (trimLeft s).

(** Leaving [Process] with [(true, nil, err)] as soon as a step fails. *)
Definition orReject {A T : Type} (r : result A) (k : A -> outcome T) : outcome T :=
  match r with
  | Err e => rejected e []
  | Ok a => k a
  end.

Notation "'try' x <- r ; k" := (orReject r (fun x => k))
  (at level 10, x name, r at level 100, k at level 200).

Definition statefulset_Process (appMeta : AppMetadata) (obj : Unstructured)
    : outcome statefulsetResult :=
  if negb (bool_decide (gvk obj = statefulsetGVC)) then skipped
  else
    match FromUnstructured obj with
    | Err e => rejected (errors_Wrap e "unable to cast to statefulset") []
    | Ok statefl =>
        try meta <- ProcessObjMeta appMeta obj;
        let name := TrimName appMeta (GetName obj) in
        let '(replicas, values) := processReplicas name statefl ∅ in
        try replicas <- replicas;
        try matchLabels <-
          yamlformat_Marshal (VMap [("matchLabels", ofStringMap (MatchLabels statefl))]) 0;
        try matchExpr <-
          match MatchExpressions statefl with
          | None => Ok EmptyString
          | Some exprs => yamlformat_Marshal (VMap [("matchExpressions", VSeq exprs)]) 0
          end;
        let selector := selectorTempl matchLabels (ChartName appMeta) matchExpr in
        let selector := Trim selector in
        let selector := yamlformat_Indent selector 4 in
        try podLabels <- yamlformat_Marshal (ofStringMap (TemplateLabels statefl)) 8;
        let podLabels :=
          podLabels ++ NL ++ "      {{- include " ++ DQ ++ ChartName appMeta
          ++ ".selectorLabels" ++ DQ ++ " . | nindent 8 }}" in
        try podAnnotations <-
          match TemplateAnnotations statefl with
          | [] => Ok EmptyString
          | annotations =>
              match yamlformat_Marshal (VMap [("annotations", ofStringMap annotations)]) 6 with
              | Err e => Err e
              | Ok podAnnotations => Ok (NL ++ podAnnotations)
              end
          end;
        let nameCamel := ToLowerCamel name in
        try podResult <- processPodSpec nameCamel appMeta (TemplateSpec statefl);
        let '(podValues, pod) := podResult in
        try values <- Merge values podValues;
        let pod := templatePVC appMeta pod in
        try spec <- marshalPodSpec nameCamel values pod;
        try volumeClaimTemplates <-
          match VolumeClaimTemplates statefl with
          | [] => Ok EmptyString
          | claims =>
              match yamlformat_Marshal (VMap [("VolumeClaimTemplates", VSeq claims)]) 2 with
              | Err e => Err e
              | Ok volumeClaimTemplates => Ok (NL ++ volumeClaimTemplates)
              end
          end;
        accepted
          {| st_data :=
               {| d_Meta := meta;
                  d_Replicas := replicas;
                  d_Selector := selector;
                  d_PodLabels := podLabels;
                  d_PodAnnotations := podAnnotations;
                  d_Spec := spec;
                  d_VolumeClaimTemplates := volumeClaimTemplates |};
             st_values := values |} []
    end.

End Processors.

(** ** Vocabulary of the statements *)

(** The paths at which [processPodContainer] stores leaves under the
    resource [name]. *)
Definition podLeaf (name : string) (p : list string) : Prop :=
  (exists c x, p = [name; c; "image"; x]) \/
  (exists c kind k, p = [name; c; "resources"; kind; k]).

(** A values tree every leaf of which sits at such a path: what
    [processPodSpec] holds between two containers. *)
Definition podShaped (name : string) (values : Values) : Prop :=
  forall p s, lookup_path p values = Some (Leaf s) -> podLeaf name p.


(** The last byte of a text. *)
Fixpoint last_byte (s : string) : option ascii :=
  match s with
  | EmptyString => None
  | String a EmptyString => Some a
  | String _ s' => last_byte s'
  end.

(** The lines [parseProperties] ranges over. *)
Definition propertyLines (properties : string) : list string :=
  strings.Split (strings.TrimSuffix properties NL) nl.


(** Induction over a payload that reaches the entries of a mapping. *)
Fixpoint value_nested_ind (P : value -> Prop)
    (Hscalar : forall s, P (VScalar s))
    (Hseq : forall l, P (VSeq l))
    (Hmap : forall m, Forall (fun kv => P (snd kv)) m -> P (VMap m))
    (Hmapi : forall m, P (VMapI m))
    (Hnil : P VNil)
    (v : value) {struct v} : P v :=
  match v with
  | VScalar s => Hscalar s
  | VSeq l => Hseq l
  | VMap m =>
      Hmap m
        ((fix entries (m : list (string * value)) : Forall (fun kv => P (snd kv)) m :=
            match m with
            | [] => @List.Forall_nil _ (fun kv => P (snd kv))
            | (k, v') :: m' =>
                @List.Forall_cons _ (fun kv => P (snd kv)) (k, v') m'
                  (value_nested_ind P Hscalar Hseq Hmap Hmapi Hnil v') (entries m')
            end) m)
  | VMapI m => Hmapi m
  | VNil => Hnil
  end.

(** Setting a path and keeping the tree when that fails: the effect on
    the values of an insertion whose error is only logged. *)
Definition tryset_at (seen : list string) (obj : Values) (fields : list string)
    (v : tree) : Values :=
  match SetNestedField_at seen obj v fields with
  | Ok obj' => obj'
  | Err _ => obj
  end.

(** One insertion: the path as the extractor builds it, and the leaf. *)
Definition insertion : Type := (list string * scalar)%type.

Definition tryAdd (ToLowerCamel : string -> string) (values : Values)
    (op : insertion) : Values :=
  snd (Add ToLowerCamel values (snd op) (fst op)).

(** The insertions [parseConfig] asks for, in the order of its loops:
    one for each scalar that is not under [kind] or [apiVersion]. *)
Fixpoint adds_entry (k : string) (v : value) (path : list string) {struct v}
    : list insertion :=
  match v with
  | VScalar s => if isDiscriminator k then [] else [((path ++ [k])%list, s)]
  | VMap t => flat_map (fun '(k', v') => adds_entry k' v' (path ++ [k])%list) t
  | _ => []
  end.

Definition adds (config : list (string * value)) (path : list string)
    : list insertion :=
  flat_map (fun '(k, v) => adds_entry k v path) config.

(** The insertions [parseProperties] asks for, one for each line. *)
Fixpoint propertyOps (lines : list string) (path : list string) : list insertion :=
  match lines with
  | [] => []
  | line :: lines' =>
      match strings.Split line "=" with
      | [propName; propVal] =>
          ((path ++ strings.Split propName ".")%list, SString propVal)
          :: propertyOps lines' path
      | _ => []
      end
  end.

(** What the placeholder of a path stands for: the scalar the values
    hold there. *)
Definition render (values : Values) (name : list string) : option scalar :=
  match lookup_path name values with
  | Some (Leaf s) => Some s
  | _ => None
  end.

(** Two runs over one payload: the same entries, the mappings ranged
    over in another order at any depth. *)
Inductive reorder : value -> value -> Prop :=
| reorder_same v : reorder v v
| reorder_map t t' : reorder_entries t t' -> reorder (VMap t) (VMap t')
with reorder_entries : list (string * value) -> list (string * value) -> Prop :=
| reorder_nil : reorder_entries [] []
| reorder_skip k v v' t t' :
    reorder v v' -> reorder_entries t t' ->
    reorder_entries ((k, v) :: t) ((k, v') :: t')
| reorder_swap e1 e2 t : reorder_entries (e1 :: e2 :: t) (e2 :: e1 :: t)
| reorder_trans t1 t2 t3 :
    reorder_entries t1 t2 -> reorder_entries t2 t3 -> reorder_entries t1 t3.

Scheme reorder_mut := Minimality for reorder Sort Prop
  with reorder_entries_mut := Minimality for reorder_entries Sort Prop.

(** Neither path starts with the other. *)
Definition incomparable (p q : list string) : Prop :=
  ~ p `prefix_of` q /\ ~ q `prefix_of` p.

(** Two insertions that cannot disturb each other: after normalisation
    they are the same insertion, or neither path starts with the other. *)
Definition settled (ToLowerCamel : string -> string) (op1 op2 : insertion) : Prop :=
  (toCamelCase ToLowerCamel (fst op1) = toCamelCase ToLowerCamel (fst op2)
   /\ snd op1 = snd op2)
  \/ incomparable (toCamelCase ToLowerCamel (fst op1)) (toCamelCase ToLowerCamel (fst op2)).

(** The last field of a path, the key a leaf is stored under. *)
Definition lastField (p : list string) : string := List.last p EmptyString.

(** No leaf of the tree is stored under [kind] or [apiVersion]. *)
Definition noDiscriminatorLeaf (values : Values) : Prop :=
  forall p s, lookup_path p values = Some (Leaf s) ->
              isDiscriminator (lastField p) = false.

(** The scalars a payload holds under [kind] or [apiVersion], with
    their paths. *)
Fixpoint discriminators_entry (k : string) (v : value) (path : list string)
    {struct v} : list (list string * scalar) :=
  match v with
  | VScalar s => if isDiscriminator k then [((path ++ [k])%list, s)] else []
  | VMap t =>
      flat_map (fun '(k', v') => discriminators_entry k' v' (path ++ [k])%list) t
  | _ => []
  end.

Definition discriminators (config : list (string * value)) (path : list string)
    : list (list string * scalar) :=
  flat_map (fun '(k, v) => discriminators_entry k v path) config.

(** The text [parseProperties] builds when every line goes through:
    each line as [name=<placeholder of its normalised path>]. *)
Fixpoint propertyText (ToLowerCamel : string -> string) (lines : list string)
    (path : list string) : string :=
  match lines with
  | [] => EmptyString
  | line :: lines' =>
      match strings.Split line "=" with
      | [propName; _] =>
          propName ++ "="
          ++ placeholder (toCamelCase ToLowerCamel (path ++ strings.Split propName "."))
          ++ NL ++ propertyText ToLowerCamel lines' path
      | _ => EmptyString
      end
  end.

(** The image of a container holds a [:]. *)
Definition imageOk (c : Container) : Prop := 0 <= strings.LastIndex (c_Image c) ":".

(** ** Sample inputs *)

(** An application and a pod to run the processors on. *)
Definition sampleMeta : AppMetadata :=
  {| TrimName := fun n => n;
     TemplatedName := fun n => "{{ include chart.fullname . }}-" ++ n;
     ChartName := "chart" |}.

Definition sampleContainer (name image : string) : Container :=
  {| c_Name := name; c_Image := image; c_Env := []; c_EnvFrom := [];
     c_Requests := []; c_Limits := [] |}.

Definition samplePod (cs : list Container) : PodSpec :=
  {| Containers := cs; Volumes := []; ServiceAccountName := EmptyString;
     ImagePullSecrets := [] |}.

(** The StatefulSet of the processor's test: three replicas, one label,
    the given containers and volume-claim templates. *)
Definition sampleStatefulSet (cs : list Container) (claims : list value) : StatefulSet :=
  {| Replicas := Some 3;
     MatchLabels := [("app", "redis")];
     MatchExpressions := None;
     TemplateLabels := [("app", "redis")];
     TemplateAnnotations := [];
     TemplateSpec := samplePod cs;
     VolumeClaimTemplates := claims |}.

Definition sampleObj : Unstructured := {| gvk := statefulsetGVC; Object := [] |}.

(** A marshaller that prints the outermost key only; enough to tell the
    blocks of a template apart. *)
Definition sampleMarshal (v : value) (indent : nat) : result string :=
  match v with
  | VMap ((k, _) :: _) => Ok (k ++ ": ...")
  | _ => Ok "..."
  end.

(** [statefulset.Process] with the sample collaborators, on an object
    that decodes to [statefl]. *)
Definition sampleProcess (statefl : StatefulSet) : outcome statefulsetResult :=
  statefulset_Process strcase.ToLowerCamel sampleMarshal
    "KUBERNETES_CLUSTER_DOMAIN" "kubernetesClusterDomain"
    (fun _ => Ok statefl) (fun _ _ => Ok "metadata: ...") (fun _ => "redis")
    (fun text _ => text) (fun _ _ _ => Ok "containers: ...")
    sampleMeta sampleObj.

(** A decoder that knows no YAML, where no entry is a YAML document. *)
Definition noYaml (text : string) : result (list (string * value)) :=
  Err "yaml: not decoded".
Definition noYamlOut (config : list (string * value)) : result string :=
  Err "yaml: not encoded".

(** The ConfigMap of the scenario: one property entry without [=]. *)
Definition sampleConfigMap : Unstructured :=
  {| gvk := configMapGVC;
     Object :=
       [("data",
         VMap [("app.properties",
                VScalar (SString ("bad-line-without-equals" ++ NL)))])] |}.

Definition sampleConfigMapProcess (obj : Unstructured) : outcome configMapResult :=
  configMap_Process strcase.ToLowerCamel noYaml noYamlOut sampleMarshal
    (fun _ => Ok ("cfg", "metadata: ..." ++ NL)) obj.


(** Two payloads: one whose keys normalise apart, listed in two orders,
    and one with two keys that normalise to [aB]. *)
Definition samplePayload : list (string * value) :=
  [("kind", VScalar (SString "Deployment"));
   ("port", VScalar (SInt 8080));
   ("db", VMap [("host", VScalar (SString "localhost"));
                ("apiVersion", VScalar (SString "v1"));
                ("tls", VScalar (SBool true))])].

Definition samplePayloadReordered : list (string * value) :=
  [("db", VMap [("tls", VScalar (SBool true));
                ("host", VScalar (SString "localhost"));
                ("apiVersion", VScalar (SString "v1"))]);
   ("kind", VScalar (SString "Deployment"));
   ("port", VScalar (SInt 8080))].

Definition collidingPayload : list (string * value) :=
  [("a-b", VScalar (SInt 1)); ("a_b", VScalar (SInt 2))].

(** ** Vocabulary of the further properties *)

(** No key of the tree holds a scalar: every leaf is at depth two or
    more. *)
Definition noTopLeaf (values : Values) : Prop :=
  forall f s, values !! f = Some (Leaf s) -> False.

(** [strings.Count(s, substr)] for a one-byte [substr]. *)
Fixpoint countByte (c : ascii) (s : string) : nat :=
  match s with
  | EmptyString => 0
  | String a s' => (if Ascii.eqb a c then 1 else 0) + countByte c s'
  end.

(** The key takes the last branch of [parseMapData]: it has none of
    the three suffixes. *)
Definition plainKey (key : string) : Prop :=
  strings.HasSuffix key ".yaml" = false
  /\ strings.HasSuffix key ".yml" = false
  /\ strings.HasSuffix key ".properties" = false.

(** The payload [parseConfig] leaves has the shape of the one it got:
    a scalar where there was a scalar, the same keys in the same order
    in every mapping, and anything else as it was. *)
Inductive sameShape : value -> value -> Prop :=
| shape_scalar s s' : sameShape (VScalar s) (VScalar s')
| shape_seq l : sameShape (VSeq l) (VSeq l)
| shape_map t t' :
    Forall2 (fun kv kv' => fst kv = fst kv' /\ sameShape (snd kv) (snd kv')) t t' ->
    sameShape (VMap t) (VMap t')
| shape_mapi t : sameShape (VMapI t) (VMapI t)
| shape_nil : sameShape VNil VNil.

(** The warnings [parseConfig] writes, in the order of its loops: one
    for each value it does not descend into. *)
Fixpoint warnings_entry (v : value) : list logEntry :=
  match v with
  | VScalar _ => []
  | VSeq _ => [LogWarn "configmap: arrays not supported"]
  | VMap t => flat_map (fun '(_, v') => warnings_entry v') t
  | VMapI _ => [LogWarn "configmap: unable to cast to map[string]interface{}"]
  | VNil => [LogWarn "configmap: unknown type <nil>"]
  end.

Definition warnings (config : list (string * value)) : list logEntry :=
  flat_map (fun '(_, v) => warnings_entry v) config.


(** The payload with every scalar that is not under [kind] or
    [apiVersion] replaced by the placeholder of its normalised path. *)
Fixpoint templated_entry (ToLowerCamel : string -> string) (k : string) (v : value)
    (path : list string) {struct v} : value :=
  match v with
  | VScalar s =>
      if isDiscriminator k then v
      else VScalar (SString (placeholder (toCamelCase ToLowerCamel (path ++ [k]))))
  | VMap t =>
      VMap (map (fun '(k', v') =>
                   (k', templated_entry ToLowerCamel k' v' (path ++ [k])%list)) t)
  | _ => v
  end.

Definition templated (ToLowerCamel : string -> string)
    (config : list (string * value)) (path : list string) : list (string * value) :=
  map (fun '(k, v) => (k, templated_entry ToLowerCamel k v path)) config.

(** No insertion of the run goes through the path of another: a
    normalised path that starts with another one is that one. *)
Definition prefixFree (ToLowerCamel : string -> string) (ops : list insertion) : Prop :=
  forall op1 op2, In op1 ops -> In op2 ops ->
    toCamelCase ToLowerCamel (fst op1) `prefix_of` toCamelCase ToLowerCamel (fst op2) ->
    toCamelCase ToLowerCamel (fst op1) = toCamelCase ToLowerCamel (fst op2).

(** No scalar of the tree is in the way of a path. *)
Definition wayFree (values : Values) (p : list string) : Prop :=
  forall r s, r `prefix_of` p -> r <> p -> lookup_path r values = Some (Leaf s) -> False.

(** What is still to be inserted can be: nothing is in the way now, and
    no insertion to come will be in the way of another. *)
Definition clearFor (ToLowerCamel : string -> string) (values : Values)
    (ops : list insertion) : Prop :=
  (forall op, In op ops ->
     fst op <> [] /\ wayFree values (toCamelCase ToLowerCamel (fst op)))
  /\ prefixFree ToLowerCamel ops.

(** Where a leaf of a pod's values comes from: the image or a
    resource quantity of one of the containers. *)
Definition podOrigin (ToLowerCamel : string -> string) (name : string)
    (cs : list Container) (p : list string) (s : scalar) : Prop :=
  exists c, In c cs /\
    let cn := ToLowerCamel (c_Name c) in
    let index := strings.LastIndex (c_Image c) ":" in
    (p = [name; cn; "image"; "repository"]
     /\ s = SString (slice_to (c_Image c) index))
    \/ (p = [name; cn; "image"; "tag"]
        /\ s = SString (slice_from (c_Image c) (index + 1)))
    \/ (exists k q, In (k, q) (c_Requests c)
          /\ p = [name; cn; "resources"; "requests"; k] /\ s = SString q)
    \/ (exists k q, In (k, q) (c_Limits c)
          /\ p = [name; cn; "resources"; "limits"; k] /\ s = SString q).

(** The environment entry every container gets. *)
Definition domainEnvVar (DomainEnv DomainKey : string) : EnvVar :=
  {| env_Name := DomainEnv;
     env_Value := "{{ .Values." ++ DomainKey ++ " }}";
     ValueFrom := None |}.

(** The paths [processPodContainer] sets for a container. *)
Definition podPath (ToLowerCamel : string -> string) (name : string) (c : Container)
    (q : list string) : Prop :=
  let cn := ToLowerCamel (c_Name c) in
  q = [name; cn; "image"; "repository"]
  \/ q = [name; cn; "image"; "tag"]
  \/ (exists k v, In (k, v) (c_Requests c) /\ q = [name; cn; "resources"; "requests"; k])
  \/ (exists k v, In (k, v) (c_Limits c) /\ q = [name; cn; "resources"; "limits"; k]).

(** *** statefulset.go, lines 133-166: the pod spec as text

    [Process] turns the processed pod spec into its unstructured form,
    puts a [toYaml] placeholder in the place of the resources of every
    container for which the values hold any, and marshals the result. *)

(** [m[k] = v] on a mapping that is listed in order. *)
Fixpoint assoc_set {A : Type} (k : string) (v : A) (m : list (string * A))
    : list (string * A) :=
  match m with
  | [] => [(k, v)]
  | (k', v') :: m' =>
      if String.eqb k k' then (k, v) :: m' else (k', v') :: assoc_set k v m'
  end.

Definition resourcesTemplate (nameCamel containerName : string) : string :=
  "{{- toYaml .Values." ++ nameCamel ++ "." ++ containerName
  ++ ".resources | nindent 10 }}".

Section SpecText.

Variable ToLowerCamel : string -> string.
Variable yamlformat_Marshal : value -> nat -> result string.

(** [runtime.DefaultUnstructuredConverter.ToUnstructured] on a pod
    spec, and the text of the error the accessors of [unstructured]
    build from the path walked and the value found there. *)
Variable ToUnstructured : PodSpec -> result (list (string * value)).
Variable accessorError : list string -> tree -> error.
Variable sliceError : list string -> value -> error.

(** [unstructured.NestedFieldNoCopy]: absent when a field is missing,
    an error when the walk meets something that is not a map. *)
Fixpoint NestedFieldNoCopy_at (seen : list string) (val : tree) (fields : list string)
    : result (option tree) :=
  match fields with
  | [] => Ok (Some val)
  | field :: rest =>
      match val with
      | Node m =>
          match m !! field with
          | Some t => NestedFieldNoCopy_at (seen ++ [field]) t rest
          | None => Ok None
          end
      | Leaf _ => Err (accessorError (seen ++ [field]) val)
      end
  end.

(** [unstructured.NestedMap(obj, fields...)]: [(m, exists, err)]. *)
Definition NestedMap (obj : Values) (fields : list string) : result (option Values) :=
  match NestedFieldNoCopy_at [] (Node obj) fields with
  | Err e => Err e
  | Ok None => Ok None
  | Ok (Some (Node m)) => Ok (Some m)
  | Ok (Some (Leaf s)) => Err (accessorError fields (Leaf s))
  end.

(** The body of the loop over [containers]; an assertion that does
    not hold is a panic, reported as an error. *)
Definition templateContainerResources (nameCamel : string) (values : Values)
    (container : value) : result value :=
  match container with
  | VMap m =>
      match assoc "name" m with
      | Some (VScalar (SString name)) =>
          let containerName := ToLowerCamel name in
          match NestedMap values [nameCamel; containerName; "resources"] with
          | Err e => Err e
          | Ok None => Ok container
          | Ok (Some res) =>
              if Nat.eqb (size res) 0 then Ok container
              else
                Ok (VMap (assoc_set "resources"
                            (VScalar (SString (resourcesTemplate nameCamel containerName)))
                            m))
          end
      | _ => Err "panic: interface conversion"
      end
  | _ => Err "panic: interface conversion"
  end.

Fixpoint templateContainersResources (nameCamel : string) (values : Values)
    (containers : list value) : result (list value) :=
  match containers with
  | [] => Ok []
  | container :: containers' =>
      match templateContainerResources nameCamel values container with
      | Err e => Err e
      | Ok container' =>
          match templateContainersResources nameCamel values containers' with
          | Err e => Err e
          | Ok containers'' => Ok (container' :: containers'')
          end
      end
  end.

(** [unstructured.NestedSlice(specMap, "containers")] with the found
    flag dropped, as the caller does. *)
Definition NestedSlice (obj : list (string * value)) (field : string)
    : result (list value) :=
  match assoc field obj with
  | None => Ok []
  | Some (VSeq l) => Ok l
  | Some v => Err (sliceError [field] v)
  end.

Definition templateSpec (nameCamel : string) (values : Values) (pod : PodSpec)
    : result string :=
  match ToUnstructured pod with
  | Err e => Err e
  | Ok specMap =>
      match NestedSlice specMap "containers" with
      | Err e => Err e
      | Ok containers =>
          match templateContainersResources nameCamel values containers with
          | Err e => Err e
          | Ok containers' =>
              let specMap := assoc_set "containers" (VSeq containers') specMap in
              match yamlformat_Marshal (VMap specMap) 6 with
              | Err e => Err e
              | Ok spec => Ok (strings.RemoveAll spec "'")
              end
          end
      end
  end.

End SpecText.

(** One of the containers with this normalised name asks for a
    resource. *)
Definition declaresResources (ToLowerCamel : string -> string) (containerName : string)
    (cs : list Container) : bool :=
  existsb (fun c => String.eqb (ToLowerCamel (c_Name c)) containerName
                    && negb (match c_Requests c, c_Limits c with
                             | [], [] => true
                             | _, _ => false
                             end)) cs.

(** The tree holds a scalar at the path. *)
Definition leafAt (p : list string) (values : Values) : Prop :=
  exists s, lookup_path p values = Some (Leaf s).

(** Wherever the tree has a resources map of a container, it has a
    quantity below it. *)
Definition resourcesFilled (name : string) (values : Values) : Prop :=
  forall cn t, lookup_path [name; cn; "resources"] values = Some t ->
    exists kind k, leafAt [name; cn; "resources"; kind; k] values.

(** The unstructured form of a container: a mapping that has its name
    under [name]. *)
Definition describes (c : Container) (v : value) : Prop :=
  exists m, v = VMap m /\ assoc "name" m = Some (VScalar (SString (c_Name c))).

(** The container with the [toYaml] placeholder in the place of its
    resources when its normalised name is one of those declared. *)
Definition placeResources (ToLowerCamel : string -> string) (nameCamel : string)
    (declared : string -> bool) (container : value) : value :=
  match container with
  | VMap m =>
      match assoc "name" m with
      | Some (VScalar (SString name)) =>
          if declared (ToLowerCamel name)
          then VMap (assoc_set "resources"
                       (VScalar (SString (resourcesTemplate nameCamel (ToLowerCamel name))))
                       m)
          else container
      | _ => container
      end
  | _ => container
  end.

(** Every scalar of the tree sits at a path with the property. *)
Definition leavesAt (P : list string -> Prop) (values : Values) : Prop :=
  forall p s, lookup_path p values = Some (Leaf s) -> P p.

(** The paths below the normalised name of a ConfigMap and one of its
    keys. *)
Definition underKey (ToLowerCamel : string -> string) (configName : string)
    (keys : list string) (p : list string) : Prop :=
  exists key rest, In key keys /\ p = ToLowerCamel configName :: ToLowerCamel key :: rest.

(** Only bytes that [strings.Trim(s, " \n")] cuts. *)
Fixpoint blank (s : string) : bool :=
  match s with
  | EmptyString => true
  | String c s' => inCutset c && blank s'
  end.

Definition first_byte (s : string) : option ascii :=
  match s with
  | String c _ => Some c
  | EmptyString => None
  end.

(** ** Further sample inputs *)

(** A container that asks for resources. *)
Definition resourcefulContainer : Container :=
  {| c_Name := "redis"; c_Image := "redis:6.2"; c_Env := []; c_EnvFrom := [];
     c_Requests := [("cpu", "100m")]; c_Limits := [("memory", "1Gi")] |}.

(** The unstructured form of a container as far as the resources loop
    reads it. *)
Definition sampleContainerValue (name : string) : value :=
  VMap [("name", VScalar (SString name)); ("image", VScalar (SString "..."))].

(** A decoder that gives the sample payload for every text, with an
    encoder that prints the keys of the first level. *)
Definition sampleYaml (text : string) : result (list (string * value)) :=
  Ok samplePayload.
Definition sampleYamlOut (config : list (string * value)) : result string :=
  Ok (String.concat NL (map (fun kv => fst kv ++ ": ...") config)).

(** A marshaller that quotes the text of the first entry, as the YAML
    encoder does for a text that starts with a brace. *)
Definition quotingMarshal (v : value) (indent : nat) : result string :=
  match v with
  | VMap ((k, VMap ((k', VScalar (SString s)) :: _)) :: _) =>
      Ok (k ++ ":" ++ NL ++ "  " ++ k' ++ ": '" ++ s ++ "'")
  | _ => Ok "{}"
  end.

(** A marshaller that fails. *)
Definition failingMarshal (v : value) (indent : nat) : result string :=
  Err "yaml: not marshalled".

(** A ConfigMap with one plain entry. *)
Definition greetingConfigMap : Unstructured :=
  {| gvk := configMapGVC;
     Object := [("data", VMap [("greeting", VScalar (SString "hello"))])] |}.

Definition sampleMetadata (obj : Unstructured) : result (string * string) :=
  Ok ("cfg", "metadata: ..." ++ NL).

(** * Properties *)

Example ToLowerCamel_samples :
  map strcase.ToLowerCamel ["cfg"; "timeout"; "my-app"; "my_app"; "app.properties"; "Kind"; "HTTPServer"]
  = ["cfg"; "timeout"; "myApp"; "myApp"; "appProperties"; "kind"; "httpserver"].
Proof. reflexivity. Qed.

(** C9: the property text [timeout=30\nretries=5\n] under the path
    [cfg] comes back as the two lines in their order, each
    [name=<placeholder>], with one trailing newline, and the fragment
    is [{cfg: {timeout: "30", retries: "5"}}]. *)
Theorem C9_properties_scenario :
  parseProperties strcase.ToLowerCamel
    ("timeout=30" ++ NL ++ "retries=5" ++ NL) ["cfg"] ∅
  = (Ok ("timeout={{ .Values.cfg.timeout }}" ++ NL
         ++ "retries={{ .Values.cfg.retries }}" ++ NL),
     {[ "cfg" := Node (<["timeout" := Leaf (SString "30")]>
                         {[ "retries" := Leaf (SString "5") ]}) ]}).
Proof. vm_compute. reflexivity. Qed.

(** ** Setting and reading a path *)

Lemma SetNestedField_at_nil seen obj v :
  SetNestedField_at seen obj v [] = Err "panic: slice bounds out of range".
Proof. reflexivity. Qed.

Lemma SetNestedField_at_one seen obj v f :
  SetNestedField_at seen obj v [f] = Ok (<[f := v]> obj).
Proof. reflexivity. Qed.

(** The scheme every proof about a path of two or more fields follows. *)
Lemma SetNestedField_at_cons seen obj v f g rest :
  SetNestedField_at seen obj v (f :: g :: rest) =
  match obj !! f with
  | Some (Node sub) =>
      match SetNestedField_at (seen ++ [f]) sub v (g :: rest) with
      | Ok sub' => Ok (<[f := Node sub']> obj)
      | Err e => Err e
      end
  | Some (Leaf _) =>
      Err ("value cannot be set because ." ++ strings.Join (seen ++ [f]) "."
           ++ " is not a map[string]interface{}")
  | None =>
      match SetNestedField_at (seen ++ [f]) ∅ v (g :: rest) with
      | Ok sub' => Ok (<[f := Node sub']> obj)
      | Err e => Err e
      end
  end.
Proof. reflexivity. Qed.

(** Whether a set succeeds does not depend on the fields already walked,
    which only enter the error message. *)
Lemma SetNestedField_at_seen seen seen' obj v fields obj' :
  SetNestedField_at seen obj v fields = Ok obj' ->
  SetNestedField_at seen' obj v fields = Ok obj'.
Proof.
  revert seen seen' obj obj'.
  induction fields as [|f [|g rest] IH]; intros seen seen' obj obj' H.
  - discriminate.
  - exact H.
  - rewrite SetNestedField_at_cons in *.
    destruct (obj !! f) as [[s|sub]|]; try discriminate.
    + destruct (SetNestedField_at (seen ++ [f]) sub v (g :: rest)) eqn:E;
        try discriminate.
      by rewrite (IH _ (seen' ++ [f])%list _ _ E).
    + destruct (SetNestedField_at (seen ++ [f]) ∅ v (g :: rest)) eqn:E;
        try discriminate.
      by rewrite (IH _ (seen' ++ [f])%list _ _ E).
Qed.

(** On an empty map every non-empty path can be set. *)
Lemma SetNestedField_at_empty seen v fields :
  fields <> [] -> exists obj', SetNestedField_at seen ∅ v fields = Ok obj'.
Proof.
  revert seen. induction fields as [|f [|g rest] IH]; intros seen Hne.
  - done.
  - eauto.
  - rewrite SetNestedField_at_cons, lookup_empty.
    destruct (IH (seen ++ [f])%list) as [sub' ->]; [done|]. eauto.
Qed.

(** What was set is what is read back. *)
Lemma lookup_path_SetNestedField seen obj v fields obj' :
  SetNestedField_at seen obj v fields = Ok obj' ->
  lookup_path fields obj' = Some v.
Proof.
  revert seen obj obj'.
  induction fields as [|f [|g rest] IH]; intros seen obj obj' H.
  - discriminate.
  - injection H as <-. simpl. by rewrite lookup_insert_eq.
  - rewrite SetNestedField_at_cons in H.
    change (lookup_path (f :: g :: rest) obj') with
      (match obj' !! f with
       | None => None
       | Some (Node sub) => lookup_path (g :: rest) sub
       | Some (Leaf _) => None
       end).
    destruct (obj !! f) as [[s|sub]|]; try discriminate.
    + destruct (SetNestedField_at (seen ++ [f]) sub v (g :: rest)) eqn:E;
        try discriminate.
      injection H as <-. rewrite lookup_insert_eq. eauto.
    + destruct (SetNestedField_at (seen ++ [f]) ∅ v (g :: rest)) eqn:E;
        try discriminate.
      injection H as <-. rewrite lookup_insert_eq. eauto.
Qed.

Lemma lookup_path_one f (m : Values) : lookup_path [f] m = m !! f.
Proof. simpl. by destruct (m !! f). Qed.

Lemma lookup_path_cons f g rest (m : Values) :
  lookup_path (f :: g :: rest) m =
  match m !! f with
  | Some (Node sub) => lookup_path (g :: rest) sub
  | _ => None
  end.
Proof. simpl. by destruct (m !! f) as [[]|]. Qed.

Lemma lookup_path_empty fields : fields <> [] -> lookup_path fields ∅ = None.
Proof. destruct fields; [done|]. intros _. simpl. by rewrite lookup_empty. Qed.

(** A set of [q] that succeeds leaves every leaf in place whose path
    does not start with [q]. *)
Lemma SetNestedField_keeps_leaf seen obj v q obj' p s :
  SetNestedField_at seen obj v q = Ok obj' ->
  lookup_path p obj = Some (Leaf s) ->
  ~ q `prefix_of` p ->
  lookup_path p obj' = Some (Leaf s).
Proof.
  revert seen obj obj' p.
  induction q as [|f [|g rest] IH]; intros seen obj obj' p Hset Hp Hpre.
  - discriminate.
  - injection Hset as <-.
    destruct p as [|f' [|g' rest']]; [done| |].
    + rewrite lookup_path_one in *.
      destruct (decide (f = f')) as [->|Hne].
      * exfalso. apply Hpre. apply prefix_cons, prefix_nil.
      * by rewrite lookup_insert_ne.
    + rewrite lookup_path_cons in *.
      destruct (decide (f = f')) as [->|Hne].
      * exfalso. apply Hpre. apply prefix_cons, prefix_nil.
      * by rewrite lookup_insert_ne.
  - rewrite SetNestedField_at_cons in Hset.
    destruct p as [|f' [|g' rest']]; [done| |].
    + rewrite lookup_path_one in *.
      destruct (decide (f = f')) as [->|Hne].
      * rewrite Hp in Hset. discriminate.
      * destruct (obj !! f) as [[s0|sub]|]; try discriminate;
          destruct (SetNestedField_at _ _ v (g :: rest)); try discriminate;
          injection Hset as <-; by rewrite lookup_insert_ne.
    + rewrite lookup_path_cons in *.
      destruct (decide (f = f')) as [->|Hne].
      * destruct (obj !! f') as [[s0|sub]|]; try discriminate.
        destruct (SetNestedField_at _ sub v (g :: rest)) eqn:E; try discriminate.
        injection Hset as <-. rewrite lookup_insert_eq.
        eapply IH; [exact E|exact Hp|].
        intros Hpre'. apply Hpre. by apply prefix_cons.
      * destruct (obj !! f) as [[s0|sub]|]; try discriminate;
          destruct (SetNestedField_at _ _ v (g :: rest)); try discriminate;
          injection Hset as <-; by rewrite lookup_insert_ne.
Qed.

(** After a leaf was set at [q], a leaf read anywhere is that one or
    was there before. *)
Lemma SetNestedField_leaves seen obj s q obj' p s' :
  SetNestedField_at seen obj (Leaf s) q = Ok obj' ->
  lookup_path p obj' = Some (Leaf s') ->
  (p = q /\ s' = s) \/ lookup_path p obj = Some (Leaf s').
Proof.
  revert seen obj obj' p.
  induction q as [|f [|g rest] IH]; intros seen obj obj' p Hset Hp.
  - discriminate.
  - injection Hset as <-.
    destruct p as [|f' [|g' rest']]; [done| |].
    + rewrite lookup_path_one in *.
      destruct (decide (f = f')) as [->|Hne].
      * rewrite lookup_insert_eq in Hp. injection Hp as <-. by left.
      * rewrite lookup_insert_ne in Hp by done. by right.
    + rewrite lookup_path_cons in *.
      destruct (decide (f = f')) as [->|Hne].
      * rewrite lookup_insert_eq in Hp. discriminate.
      * rewrite lookup_insert_ne in Hp by done. by right.
  - rewrite SetNestedField_at_cons in Hset.
    assert (exists sub sub',
      SetNestedField_at (seen ++ [f]) sub (Leaf s) (g :: rest) = Ok sub' /\
      obj' = <[f := Node sub']> obj /\
      (obj !! f = Some (Node sub) \/ (obj !! f = None /\ sub = ∅)))
      as (sub & sub' & E & -> & Hsub).
    { destruct (obj !! f) as [[s0|sub]|]; try discriminate.
      - destruct (SetNestedField_at _ sub _ (g :: rest)) eqn:E; try discriminate.
        injection Hset as <-. eauto 10.
      - destruct (SetNestedField_at _ ∅ _ (g :: rest)) eqn:E; try discriminate.
        injection Hset as <-. eauto 10. }
    destruct p as [|f' [|g' rest']]; [done| |].
    + rewrite lookup_path_one in *.
      destruct (decide (f = f')) as [->|Hne].
      * rewrite lookup_insert_eq in Hp. discriminate.
      * rewrite lookup_insert_ne in Hp by done. by right.
    + rewrite lookup_path_cons in *.
      destruct (decide (f = f')) as [->|Hne].
      * rewrite lookup_insert_eq in Hp.
        destruct (IH _ _ _ _ E Hp) as [[Heq ->]|Hold].
        -- left. by rewrite Heq.
        -- right. destruct Hsub as [->|[_ ->]]; [done|].
           by rewrite lookup_path_empty in Hold.
      * rewrite lookup_insert_ne in Hp by done. by right.
Qed.

(** A set fails only for want of a field or on a leaf in its way. *)
Lemma SetNestedField_fails seen obj v q e :
  SetNestedField_at seen obj v q = Err e ->
  q = [] \/ exists r s, r `prefix_of` q /\ r <> q /\ lookup_path r obj = Some (Leaf s).
Proof.
  revert seen obj.
  induction q as [|f [|g rest] IH]; intros seen obj H.
  - by left.
  - discriminate.
  - right. rewrite SetNestedField_at_cons in H.
    destruct (obj !! f) as [[s0|sub]|] eqn:Hf.
    + exists [f], s0. split; [apply prefix_cons, prefix_nil|].
      split; [done|]. by rewrite lookup_path_one.
    + destruct (SetNestedField_at _ sub v (g :: rest)) eqn:E; try discriminate.
      injection H as ->.
      destruct (IH _ _ E) as [|(r & s & Hpre & Hne & Hr)]; [done|].
      destruct r as [|r0 r']; [done|].
      exists (f :: r0 :: r'), s. split; [by apply prefix_cons|].
      split; [congruence|]. by rewrite lookup_path_cons, Hf.
    + destruct (SetNestedField_at_empty (seen ++ [f]) v (g :: rest)) as [x Hx]; [done|].
      rewrite Hx in H. discriminate.
Qed.

(** ** Strings *)

Lemma substring_all s : substring 0 (String.length s) s = s.
Proof. induction s as [|a s IH]; simpl; [done|]. by rewrite IH. Qed.



(** ** StatefulSet: containers *)

Lemma podShaped_empty name : podShaped name ∅.
Proof.
  intros p s H. destruct p as [|f p]; [done|].
  by rewrite lookup_path_empty in H.
Qed.

Lemma podLeaf_no_strict_prefix name r q :
  podLeaf name r -> podLeaf name q -> r `prefix_of` q -> r = q.
Proof.
  intros Hr Hq [k Hk].
  destruct Hr as [(c & x & ->)|(c & kind & x & ->)];
    destruct Hq as [(c' & x' & ->)|(c' & kind' & x' & ->)];
    simplify_list_eq; done.
Qed.

(** On a pod-shaped tree a leaf can be set at every pod path, and the
    tree stays pod-shaped. *)
Lemma podShaped_set name values s q :
  podShaped name values -> podLeaf name q ->
  exists values', SetNestedField values (Leaf s) q = Ok values'
                  /\ podShaped name values'
                  /\ lookup_path q values' = Some (Leaf s).
Proof.
  intros Hshape Hq. unfold SetNestedField.
  destruct (SetNestedField_at [] values (Leaf s) q) as [values'|e] eqn:E.
  - exists values'. split; [done|]. split.
    + intros p s' Hp.
      destruct (SetNestedField_leaves _ _ _ _ _ _ _ E Hp) as [[-> _]|Hold]; eauto.
    + eapply lookup_path_SetNestedField; eauto.
  - exfalso. destruct (SetNestedField_fails _ _ _ _ _ E) as [->|(r & s' & Hpre & Hne & Hr)].
    + destruct Hq as [(c & x & ?)|(c & kind & x & ?)]; discriminate.
    + apply Hne. eapply podLeaf_no_strict_prefix; eauto.
Qed.

Lemma podShaped_keeps name values s q values' p s' :
  SetNestedField values (Leaf s) q = Ok values' ->
  lookup_path p values = Some (Leaf s') ->
  podLeaf name p -> podLeaf name q -> p <> q ->
  lookup_path p values' = Some (Leaf s').
Proof.
  intros Hset Hp Hlp Hlq Hne.
  eapply SetNestedField_keeps_leaf; eauto.
  intros Hpre. apply Hne. symmetry. eapply podLeaf_no_strict_prefix; eauto.
Qed.

Section Containers.

Variable ToLowerCamel : string -> string.
Variable DomainEnv DomainKey : string.

Lemma setResources_ok name containerName kind l values :
  podShaped name values ->
  exists values',
    setResources values name containerName kind l = Ok values'
    /\ podShaped name values'
    /\ forall x s, lookup_path [name; containerName; "image"; x] values = Some (Leaf s) ->
                   lookup_path [name; containerName; "image"; x] values' = Some (Leaf s).
Proof.
  revert values. induction l as [|[k v] l IH]; intros values Hshape; simpl.
  - eauto.
  - destruct (podShaped_set name values (SString v)
                [name; containerName; "resources"; kind; k] Hshape)
      as (values1 & E & Hshape1 & _).
    { right. eauto. }
    rewrite E.
    destruct (IH values1 Hshape1) as (values' & -> & Hshape' & Hkeep).
    exists values'. split; [done|]. split; [done|].
    intros x s Hx. apply Hkeep.
    eapply SetNestedField_keeps_leaf; [exact E | exact Hx |].
    intros [k0 Hk0]. simplify_list_eq.
Qed.

(** A container with a well-formed image is always processed in a
    pod-shaped tree, and its two image leaves are there afterwards. *)
Lemma processPodContainer_ok name appMeta c values :
  podShaped name values -> imageOk c ->
  exists c' values',
    processPodContainer ToLowerCamel DomainEnv DomainKey name appMeta c values
      = (Ok c', values')
    /\ podShaped name values'
    /\ c_Image c' = imageTemplate name (ToLowerCamel (c_Name c))
    /\ lookup_path [name; ToLowerCamel (c_Name c); "image"; "repository"] values'
       = Some (Leaf (SString (slice_to (c_Image c) (strings.LastIndex (c_Image c) ":"))))
    /\ lookup_path [name; ToLowerCamel (c_Name c); "image"; "tag"] values'
       = Some (Leaf (SString (slice_from (c_Image c) (strings.LastIndex (c_Image c) ":" + 1)))).
Proof.
  intros Hshape Himg. unfold processPodContainer, imageOk in *.
  destruct (strings.LastIndex (c_Image c) ":" <? 0) eqn:E; [apply Z.ltb_lt in E; lia|].
  set (cn := ToLowerCamel (c_Name c)).
  set (repo := slice_to _ _). set (tag := slice_from _ _).
  destruct (podShaped_set name values (SString repo) [name; cn; "image"; "repository"] Hshape)
    as (values1 & E1 & Hshape1 & Hrepo); [left; eauto|].
  rewrite E1.
  destruct (podShaped_set name values1 (SString tag) [name; cn; "image"; "tag"] Hshape1)
    as (values2 & E2 & Hshape2 & Htag); [left; eauto|].
  rewrite E2.
  assert (lookup_path [name; cn; "image"; "repository"] values2 = Some (Leaf (SString repo)))
    as Hrepo2.
  { eapply SetNestedField_keeps_leaf; [exact E2 | exact Hrepo |].
    intros [k0 Hk0]. simplify_list_eq. }
  destruct (setResources_ok name cn "requests" (c_Requests c) values2 Hshape2)
    as (values3 & -> & Hshape3 & Hkeep3).
  destruct (setResources_ok name cn "limits" (c_Limits c) values3 Hshape3)
    as (values4 & -> & Hshape4 & Hkeep4).
  eexists _, values4. split; [reflexivity|]. split; [done|]. split; [done|].
  split; apply Hkeep4, Hkeep3; done.
Qed.

Lemma processPodContainer_wrong_image name appMeta c values :
  ~ imageOk c ->
  processPodContainer ToLowerCamel DomainEnv DomainKey name appMeta c values
  = (Err ("wrong image format: " ++ c_Image c), values).
Proof.
  intros Himg. unfold processPodContainer, imageOk in *.
  destruct (strings.LastIndex (c_Image c) ":" <? 0) eqn:E; [done|].
  apply Z.ltb_ge in E. lia.
Qed.

(** The loop over the containers: it succeeds when every image is well
    formed, and then the image leaves of the last container are in the
    tree whatever the containers before it were called. *)
Lemma processContainers_ok name appMeta cs values :
  podShaped name values -> Forall imageOk cs ->
  exists cs' values',
    processContainers ToLowerCamel DomainEnv DomainKey name appMeta cs values
      = Ok (cs', values')
    /\ podShaped name values'
    /\ map c_Image cs'
       = map (fun c => imageTemplate name (ToLowerCamel (c_Name c))) cs.
Proof.
  revert values. induction cs as [|c cs IH]; intros values Hshape Hall; simpl.
  - eauto.
  - apply Forall_cons in Hall as [Hc Hcs].
    destruct (processPodContainer_ok name appMeta c values Hshape Hc)
      as (c' & values1 & -> & Hshape1 & Himg & _).
    destruct (IH values1 Hshape1 Hcs) as (cs' & values' & -> & Hshape' & Himgs).
    eexists _, _. split; [reflexivity|]. split; [done|]. simpl. by rewrite Himg, Himgs.
Qed.


End Containers.

(** ** StatefulSet: images *)



(** ** StatefulSet: Process *)



Section Process.

Variable ToLowerCamel : string -> string.
Variable yamlformat_Marshal : value -> nat -> result string.
Variable DomainEnv DomainKey : string.
Variable FromUnstructured : Unstructured -> result StatefulSet.
Variable ProcessObjMeta : AppMetadata -> Unstructured -> result string.
Variable GetName : Unstructured -> string.
Variable yamlformat_Indent : string -> nat -> string.
Variable marshalPodSpec : string -> Values -> PodSpec -> result string.

#[local] Abbreviation Process :=
  (statefulset_Process ToLowerCamel yamlformat_Marshal DomainEnv DomainKey
     FromUnstructured ProcessObjMeta GetName yamlformat_Indent marshalPodSpec).


(** On a fresh tree the replica count is always stored. *)
Lemma Add_fresh v a b :
  exists ph, Add ToLowerCamel ∅ v [a; b] = (Ok ph, {[ ToLowerCamel a := Node {[ ToLowerCamel b := Leaf v ]} ]}).
Proof.
  unfold Add, SetNestedField. simpl. rewrite lookup_empty. simpl.
  by eexists.
Qed.


End Process.


(** ** StatefulSet: containers whose names normalise alike *)





(** ** ConfigMap: the property extractor *)

Lemma substring_split n s :
  (n <= String.length s)%nat ->
  s = substring 0 n s ++ substring n (String.length s - n) s.
Proof.
  revert s. induction n as [|n IH]; intros s Hn.
  - simpl. rewrite Nat.sub_0_r, substring_all. by destruct s.
  - destruct s as [|a s]; simpl in *; [lia|].
    exact (f_equal (String a) (IH s ltac:(lia))).
Qed.

Lemma HasSuffix_app s suffix :
  strings.HasSuffix s suffix = true -> exists pre, s = pre ++ suffix.
Proof.
  unfold strings.HasSuffix. intros H.
  apply andb_true_iff in H as [Hlen Heq].
  apply Nat.leb_le in Hlen. apply String.eqb_eq in Heq.
  exists (substring 0 (String.length s - String.length suffix) s).
  pose proof (substring_split (String.length s - String.length suffix) s
                ltac:(lia)) as Hs.
  replace (String.length s - (String.length s - String.length suffix))%nat
    with (String.length suffix) in Hs by lia.
  by rewrite Heq in Hs.
Qed.

Lemma last_byte_app pre a suffix :
  last_byte (pre ++ String a suffix) = last_byte (String a suffix).
Proof.
  induction pre as [|b pre IH]; [done|].
  change (String b pre ++ String a suffix) with (String b (pre ++ String a suffix)).
  change (last_byte (String b (pre ++ String a suffix))) with
    (match pre ++ String a suffix with
     | EmptyString => Some b
     | _ => last_byte (pre ++ String a suffix)
     end).
  rewrite IH. by destruct pre.
Qed.

(** A key that ends in [.properties] takes the second branch of
    [parseMapData]. *)
Lemma properties_not_yaml key :
  strings.HasSuffix key ".properties" = true ->
  strings.HasSuffix key ".yaml" || strings.HasSuffix key ".yml" = false.
Proof.
  intros H. apply HasSuffix_app in H as [pre ->].
  apply orb_false_iff. split.
  - destruct (strings.HasSuffix _ ".yaml") eqn:E; [|done].
    apply HasSuffix_app in E as [pre' E].
    apply (f_equal last_byte) in E. rewrite !last_byte_app in E. discriminate.
  - destruct (strings.HasSuffix _ ".yml") eqn:E; [|done].
    apply HasSuffix_app in E as [pre' E].
    apply (f_equal last_byte) in E. rewrite !last_byte_app in E. discriminate.
Qed.

Section ConfigMap.

Variable ToLowerCamel : string -> string.
Variable yaml_Unmarshal : string -> result (list (string * value)).
Variable yaml_Marshal : list (string * value) -> result string.


(** A line that does not split in two makes the whole text fail. *)
Lemma parseProperties_loop_bad lines line path values res :
  In line lines -> length (strings.Split line "=") <> 2%nat ->
  exists e values', parseProperties_loop ToLowerCamel lines path values res = (Err e, values').
Proof.
  intros Hin Hbad. revert values res.
  induction lines as [|l lines IH]; intros values res; [done|]. simpl.
  destruct (strings.Split l "=") as [|propName [|propVal [|]]] eqn:E; eauto.
  destruct (Add _ _ _ _) as [[templatedVal|e] values']; [|eauto].
  destruct Hin as [->|Hin]; [|by apply IH].
  rewrite E in Hbad. done.
Qed.



End ConfigMap.


(** ** ConfigMap: Process *)

Section ConfigMapProcess.

Variable ToLowerCamel : string -> string.
Variable yaml_Unmarshal : string -> result (list (string * value)).
Variable yaml_Marshal : list (string * value) -> result string.
Variable yamlformat_Marshal : value -> nat -> result string.
Variable ProcessMetadata : Unstructured -> result (string * string).

#[local] Abbreviation loop :=
  (parseMapData_loop ToLowerCamel yaml_Unmarshal yaml_Marshal).
#[local] Abbreviation entry :=
  (parseMapData_entry ToLowerCamel yaml_Unmarshal yaml_Marshal).

Lemma parseMapData_loop_app d1 d2 configName values :
  loop (d1 ++ d2) configName values =
  let '(d1', values1, logs1) := loop d1 configName values in
  let '(d2', values2, logs2) := loop d2 configName values1 in
  ((d1' ++ d2')%list, values2, (logs1 ++ logs2)%list).
Proof.
  revert values. induction d1 as [|[key value] d1 IH]; intros values; simpl.
  - by destruct (loop d2 configName values) as [[d2' values2] logs2].
  - destruct (entry key value configName values) as [[value' values1] logs1].
    rewrite IH.
    destruct (loop d1 configName values1) as [[d1' values1'] logs1'].
    destruct (loop d2 configName values1') as [[d2' values2] logs2].
    by rewrite app_assoc.
Qed.

Lemma parseMapData_loop_length data configName values :
  length (fst (fst (loop data configName values))) = length data.
Proof.
  revert values. induction data as [|[key value] data IH]; intros values; simpl; [done|].
  destruct (entry key value configName values) as [[value' values1] logs1].
  specialize (IH values1).
  destruct (loop data configName values1) as [[data' values2] logs2].
  simpl in *. by rewrite IH.
Qed.

(** An entry whose property text holds a bad line: the text stays, one
    diagnostic is written. *)
Lemma parseMapData_entry_bad key value configName values line :
  strings.HasSuffix key ".properties" = true ->
  In line (propertyLines value) ->
  length (strings.Split line "=") <> 2%nat ->
  exists e values',
    parseProperties ToLowerCamel value [configName; key] values = (Err e, values')
    /\ entry key value configName values
       = (value, values', [unableToProcess e [configName; key]]).
Proof.
  intros Hkey Hin Hbad.
  destruct (parseProperties_loop_bad ToLowerCamel _ _ [configName; key] values
              EmptyString Hin Hbad) as (e & values' & E).
  exists e, values'. unfold parseMapData_entry.
  rewrite (properties_not_yaml key Hkey), Hkey.
  unfold parseProperties. fold (propertyLines value). by rewrite E.
Qed.

(** C8: a [.properties] entry with a line that does not split in two at
    [=] fails to parse, whatever the values are when it is reached; the
    ConfigMap is accepted all the same (metadata and marshalling going
    through), the data handed to the marshaller holds the entry with its
    original text at its place, and a diagnostic for the entry is in the
    log. *)
Theorem C8_bad_property_line_degrades
    obj name template data pre key value post line :
  gvk obj = configMapGVC ->
  ProcessMetadata obj = Ok (name, template) ->
  (forall v n, isOk (yamlformat_Marshal v n) = true) ->
  NestedStringMap (Object obj) "data" = Some data ->
  data = (pre ++ (key, value) :: post)%list ->
  strings.HasSuffix key ".properties" = true ->
  In line (propertyLines value) ->
  length (strings.Split line "=") <> 2%nat ->
  (forall values, exists e values',
      parseProperties ToLowerCamel value [name; key] values = (Err e, values'))
  /\ exists r l pre' post' dataStr template',
       configMap_Process ToLowerCamel yaml_Unmarshal yaml_Marshal yamlformat_Marshal
         ProcessMetadata obj
       = accepted r l
       /\ (exists e, In (unableToProcess e [name; key]) l)
       /\ length pre' = length pre
       /\ yamlformat_Marshal
            (VMap [("data", ofStringMap (pre' ++ (key, value) :: post'))]) 0
          = Ok dataStr
       /\ cm_data r = template' ++ strings.RemoveAll dataStr "'".
Proof.
  intros Hgvk Hmeta Hmarshal Hdata -> Hkey Hin Hbad.
  assert (forall v n, exists str, yamlformat_Marshal v n = Ok str) as Hm.
  { intros v n. specialize (Hmarshal v n).
    destruct (yamlformat_Marshal v n); [eauto|discriminate]. }
  split.
  { intros values.
    destruct (parseMapData_entry_bad key value name values line Hkey Hin Hbad)
      as (e & values' & E & _). eauto. }
  unfold configMap_Process.
  rewrite Hgvk, bool_decide_eq_true_2 by done. simpl. rewrite Hmeta.
  assert (exists t1, appendImmutable yamlformat_Marshal obj template = Ok t1) as [t1 ->].
  { unfold appendImmutable. destruct (NestedBool _ _) as [b|]; [|eauto].
    destruct (Hm (VMap [("immutable", VScalar (SBool b))]) 0%nat) as [str ->]. eauto. }
  assert (exists t2, appendBinaryData yamlformat_Marshal obj t1 = Ok t2) as [t2 ->].
  { unfold appendBinaryData. destruct (NestedStringMap _ "binaryData") as [b|]; [|eauto].
    destruct (Hm (VMap [("binaryData", ofStringMap b)]) 0%nat) as [str ->]. eauto. }
  rewrite Hdata. unfold parseMapData. rewrite parseMapData_loop_app.
  pose proof (parseMapData_loop_length pre name ∅) as Hlen.
  destruct (loop pre name ∅) as [[pre' values1] logs1]. simpl in Hlen. simpl.
  destruct (parseMapData_entry_bad key value name values1 line Hkey Hin Hbad)
    as (e & values' & _ & ->).
  destruct (loop post name values') as [[post' values2] logs2].
  destruct (Hm (VMap [("data", ofStringMap (pre' ++ (key, value) :: post'))]) 0%nat)
    as [dataStr E].
  rewrite E. simpl.
  eexists _, _, pre', post', dataStr, t2. split; [reflexivity|].
  split; [|done].
  exists e. apply in_or_app. right. simpl. auto.
Qed.

End ConfigMapProcess.

Lemma C8_bad_property_line_degrades_witness :
  (forall values, exists e values',
      parseProperties strcase.ToLowerCamel ("bad-line-without-equals" ++ NL)
        ["cfg"; "app.properties"] values = (Err e, values'))
  /\ exists r l pre' post' dataStr template',
       sampleConfigMapProcess sampleConfigMap = accepted r l
       /\ (exists e, In (unableToProcess e ["cfg"; "app.properties"]) l)
       /\ length pre' = 0%nat
       /\ sampleMarshal
            (VMap [("data",
                    ofStringMap (pre' ++ ("app.properties", "bad-line-without-equals" ++ NL)
                                       :: post'))]) 0
          = Ok dataStr
       /\ cm_data r = template' ++ strings.RemoveAll dataStr "'".
Proof.
  apply (C8_bad_property_line_degrades strcase.ToLowerCamel noYaml noYamlOut
           sampleMarshal (fun _ => Ok ("cfg", "metadata: ..." ++ NL)) sampleConfigMap
           "cfg" ("metadata: ..." ++ NL)
           [("app.properties", "bad-line-without-equals" ++ NL)] []
           "app.properties" ("bad-line-without-equals" ++ NL) []
           "bad-line-without-equals").
  - reflexivity.
  - reflexivity.
  - intros v n. unfold sampleMarshal. by destruct v as [| |[|[]]| |].
  - reflexivity.
  - reflexivity.
  - reflexivity.
  - vm_compute. by left.
  - by vm_compute.
Defined.

(** ** StatefulSet: volume-claim templates *)

Lemma append_assoc (a b c : string) : (a ++ b) ++ c = a ++ (b ++ c).
Proof.
  induction a as [|x a IH]; [done|].
  exact (f_equal (String x) IH).
Qed.


Section Claims.

Variable ToLowerCamel : string -> string.
Variable yamlformat_Marshal : value -> nat -> result string.
Variable DomainEnv DomainKey : string.
Variable FromUnstructured : Unstructured -> result StatefulSet.
Variable ProcessObjMeta : AppMetadata -> Unstructured -> result string.
Variable GetName : Unstructured -> string.
Variable yamlformat_Indent : string -> nat -> string.
Variable marshalPodSpec : string -> Values -> PodSpec -> result string.

#[local] Abbreviation Process :=
  (statefulset_Process ToLowerCamel yamlformat_Marshal DomainEnv DomainKey
     FromUnstructured ProcessObjMeta GetName yamlformat_Indent marshalPodSpec).



End Claims.



(** ** Insertions whose failure is only logged *)

Lemma tryset_at_one seen obj f v : tryset_at seen obj [f] v = <[f := v]> obj.
Proof. reflexivity. Qed.

Lemma tryset_at_cons seen obj f g rest v :
  tryset_at seen obj (f :: g :: rest) v =
  match obj !! f with
  | Some (Leaf _) => obj
  | Some (Node sub) =>
      <[f := Node (tryset_at (seen ++ [f]) sub (g :: rest) v)]> obj
  | None => <[f := Node (tryset_at (seen ++ [f]) ∅ (g :: rest) v)]> obj
  end.
Proof.
  unfold tryset_at. rewrite SetNestedField_at_cons.
  destruct (obj !! f) as [[s|sub]|] eqn:Hf; [done| |].
  - destruct (SetNestedField_at _ sub v (g :: rest)); [done|].
    by rewrite insert_id.
  - destruct (SetNestedField_at_empty (seen ++ [f]) v (g :: rest)) as [sub' ->]; done.
Qed.

(** An insertion touches the tree at its first field only. *)
Lemma tryset_at_head seen obj f rest v :
  tryset_at seen obj (f :: rest) v = obj \/
  exists x, tryset_at seen obj (f :: rest) v = <[f := x]> obj.
Proof.
  destruct rest as [|g rest].
  - right. eexists. apply tryset_at_one.
  - rewrite tryset_at_cons. destruct (obj !! f) as [[s|sub]|]; eauto.
Qed.

Lemma tryset_at_insert_ne seen obj f x g rest v :
  f <> g ->
  tryset_at seen (<[f := x]> obj) (g :: rest) v
  = <[f := x]> (tryset_at seen obj (g :: rest) v).
Proof.
  intros Hne. destruct rest as [|g' rest].
  - rewrite !tryset_at_one. by apply insert_insert_ne.
  - rewrite !tryset_at_cons, lookup_insert_ne by done.
    destruct (obj !! g) as [[s|sub]|]; [done| |]; by apply insert_insert_ne.
Qed.

(** Two insertions at paths neither of which starts with the other can
    be made in either order. *)
Lemma tryset_at_comm p q v w obj seen seen' :
  incomparable p q ->
  tryset_at seen' (tryset_at seen obj p v) q w
  = tryset_at seen (tryset_at seen' obj q w) p v.
Proof.
  revert q obj seen seen'.
  induction p as [|f p IH]; intros q obj seen seen' [Hpq Hqp].
  { exfalso. apply Hpq, prefix_nil. }
  destruct q as [|g q]; [exfalso; apply Hqp, prefix_nil|].
  destruct (decide (f = g)) as [<-|Hne].
  - destruct p as [|f2 p]; [exfalso; apply Hpq, prefix_cons, prefix_nil|].
    destruct q as [|g2 q]; [exfalso; apply Hqp, prefix_cons, prefix_nil|].
    assert (incomparable (f2 :: p) (g2 :: q)) as Hinc.
    { split; intros H; [apply Hpq|apply Hqp]; by apply prefix_cons. }
    rewrite (tryset_at_cons seen obj), (tryset_at_cons seen' obj).
    destruct (obj !! f) as [[s|sub]|] eqn:Hf.
    + by rewrite !tryset_at_cons, Hf.
    + rewrite !tryset_at_cons, !lookup_insert_eq, !insert_insert_eq.
      by rewrite (IH _ sub _ _ Hinc).
    + rewrite !tryset_at_cons, !lookup_insert_eq, !insert_insert_eq.
      by rewrite (IH _ ∅ _ _ Hinc).
  - destruct (tryset_at_head seen obj f p v) as [Ep|[x Ep]];
      destruct (tryset_at_head seen' obj g q w) as [Eq|[y Eq]];
      rewrite Ep, Eq; rewrite ?tryset_at_insert_ne by done;
      rewrite ?Ep, ?Eq; try done.
    by apply insert_insert_ne.
Qed.

(** Folding operations that commute pairwise over two orders of one
    list gives one result. *)
Lemma fold_left_Permutation {A B : Type} (f : A -> B -> A) (l l' : list B) :
  Permutation l l' ->
  (forall x y a, In x l -> In y l -> f (f a x) y = f (f a y) x) ->
  forall a, fold_left f l a = fold_left f l' a.
Proof.
  induction 1 as [|x l l' Hperm IH|x y l|l l' l'' H1 IH1 H2 IH2]; intros Hcomm a.
  - done.
  - simpl. apply IH. intros; apply Hcomm; by right.
  - simpl. f_equal. apply Hcomm; simpl; auto.
  - rewrite IH1 by done. apply IH2.
    intros x y b Hx Hy. apply Hcomm; eapply Permutation_in; try eassumption;
      by apply Permutation_sym.
Qed.

(** ** The structural extractor *)

Section Structural.

Variable ToLowerCamel : string -> string.

#[local] Abbreviation tryAdd' := (tryAdd ToLowerCamel).

Lemma tryAdd_tryset values op :
  tryAdd' values op
  = tryset_at [] values (toCamelCase ToLowerCamel (fst op)) (Leaf (snd op)).
Proof.
  unfold tryAdd, Add, SetNestedField, tryset_at.
  by destruct (SetNestedField_at _ _ _ _).
Qed.

Lemma parseConfig_entry_map k t values path :
  parseConfig_entry ToLowerCamel k (VMap t) values path =
  let '(t', values', logs) := parseConfig ToLowerCamel t values (path ++ [k]) in
  (VMap t', values', logs).
Proof. reflexivity. Qed.

Lemma adds_entry_map k t path :
  adds_entry k (VMap t) path = adds t (path ++ [k]).
Proof. reflexivity. Qed.

Lemma adds_cons k v config path :
  adds ((k, v) :: config) path = (adds_entry k v path ++ adds config path)%list.
Proof. reflexivity. Qed.

(** The values [parseConfig] leaves are its insertions made in turn. *)
Lemma rangeConfig_values config path :
  Forall (fun kv => forall k values path,
            snd (fst (parseConfig_entry ToLowerCamel k (snd kv) values path))
            = fold_left tryAdd' (adds_entry k (snd kv) path) values) config ->
  forall values,
    snd (fst (parseConfig ToLowerCamel config values path))
    = fold_left tryAdd' (adds config path) values.
Proof.
  induction 1 as [|[k v] config Hv _ IH]; intros values; [done|].
  rewrite adds_cons, fold_left_app. unfold parseConfig in *. simpl.
  specialize (Hv k values path). simpl in Hv.
  destruct (parseConfig_entry _ k v values path) as [[v' values1] logs1].
  simpl in Hv. specialize (IH values1).
  destruct (rangeConfig _ config values1) as [[config' values2] logs2].
  simpl in *. by rewrite <- Hv.
Qed.

Lemma parseConfig_entry_values v :
  forall k values path,
    snd (fst (parseConfig_entry ToLowerCamel k v values path))
    = fold_left tryAdd' (adds_entry k v path) values.
Proof.
  induction v as [s|l|t IH|t|] using value_nested_ind; intros k values path;
    try done.
  - simpl. destruct (isDiscriminator k); [done|].
    unfold tryAdd. simpl. by destruct (Add _ _ _ _) as [[templated|e] values'].
  - rewrite parseConfig_entry_map, adds_entry_map.
    pose proof (rangeConfig_values t (path ++ [k]) IH values) as H.
    by destruct (parseConfig _ t values _) as [[t' values'] logs].
Qed.

Lemma parseConfig_values config values path :
  snd (fst (parseConfig ToLowerCamel config values path))
  = fold_left tryAdd' (adds config path) values.
Proof.
  apply rangeConfig_values, Forall_forall.
  intros kv _ k values' path'. apply parseConfig_entry_values.
Qed.

(** Ranging over a payload in another order asks for the same
    insertions in another order. *)
Lemma adds_reorder :
  (forall v v', reorder v v' ->
     forall k path, Permutation (adds_entry k v path) (adds_entry k v' path))
  /\ (forall t t', reorder_entries t t' ->
        forall path, Permutation (adds t path) (adds t' path)).
Proof.
  split.
  - apply (reorder_mut
      (fun v v' => forall k path, Permutation (adds_entry k v path) (adds_entry k v' path))
      (fun t t' => forall path, Permutation (adds t path) (adds t' path))).
    + done.
    + intros t t' _ IH k path. rewrite !adds_entry_map. apply IH.
    + done.
    + intros k v v' t t' _ IHv _ IHt path. rewrite !adds_cons.
      by apply Permutation_app.
    + intros [k1 v1] [k2 v2] t path. rewrite !adds_cons, !app_assoc.
      apply Permutation_app_tail, Permutation_app_comm.
    + intros t1 t2 t3 _ IH1 _ IH2 path. etransitivity; eauto.
  - apply (reorder_entries_mut
      (fun v v' => forall k path, Permutation (adds_entry k v path) (adds_entry k v' path))
      (fun t t' => forall path, Permutation (adds t path) (adds t' path))).
    + done.
    + intros t t' _ IH k path. rewrite !adds_entry_map. apply IH.
    + done.
    + intros k v v' t t' _ IHv _ IHt path. rewrite !adds_cons.
      by apply Permutation_app.
    + intros [k1 v1] [k2 v2] t path. rewrite !adds_cons, !app_assoc.
      apply Permutation_app_tail, Permutation_app_comm.
    + intros t1 t2 t3 _ IH1 _ IH2 path. etransitivity; eauto.
Qed.

Lemma tryAdd_settled op1 op2 values :
  settled ToLowerCamel op1 op2 ->
  tryAdd' (tryAdd' values op1) op2 = tryAdd' (tryAdd' values op2) op1.
Proof.
  intros [[Hpath Hval]|Hinc]; rewrite !tryAdd_tryset.
  - by rewrite Hpath, Hval.
  - by apply tryset_at_comm.
Qed.

(** C3, as the code has it: two runs that range over the mappings of a
    payload in different orders leave the same values, provided any two
    of its insertions are settled: they are the same after normalisation,
    or neither normalised path starts with the other.  (Without that the
    insertion made last wins.) *)
Theorem C3_order_independent_when_settled config config' values path :
  reorder_entries config config' ->
  (forall op1 op2, In op1 (adds config path) -> In op2 (adds config path) ->
                   settled ToLowerCamel op1 op2) ->
  snd (fst (parseConfig ToLowerCamel config values path))
  = snd (fst (parseConfig ToLowerCamel config' values path)).
Proof.
  intros Hre Hsettled. rewrite !parseConfig_values.
  apply fold_left_Permutation.
  - by apply adds_reorder.
  - intros op1 op2 a H1 H2. apply tryAdd_settled. by apply Hsettled.
Qed.

End Structural.

Lemma samplePayload_reorder : reorder_entries samplePayload samplePayloadReordered.
Proof.
  unfold samplePayload, samplePayloadReordered.
  set (db := [("host", VScalar (SString "localhost"));
              ("apiVersion", VScalar (SString "v1"));
              ("tls", VScalar (SBool true))]).
  set (db' := [("tls", VScalar (SBool true));
               ("host", VScalar (SString "localhost"));
               ("apiVersion", VScalar (SString "v1"))]).
  assert (reorder_entries db db') as Hdb.
  { eapply reorder_trans; [apply reorder_skip; [apply reorder_same|apply reorder_swap]|].
    apply reorder_swap. }
  eapply reorder_trans.
  { apply reorder_skip; [apply reorder_same|].
    apply reorder_skip; [apply reorder_same|].
    apply reorder_skip; [apply reorder_map, Hdb|apply reorder_nil]. }
  eapply reorder_trans; [apply reorder_skip; [apply reorder_same|apply reorder_swap]|].
  apply reorder_swap.
Qed.

Lemma C3_order_independent_when_settled_witness :
  snd (fst (parseConfig strcase.ToLowerCamel samplePayload ∅ ["cfg"; "app.yaml"]))
  = snd (fst (parseConfig strcase.ToLowerCamel samplePayloadReordered ∅ ["cfg"; "app.yaml"])).
Proof.
  apply (C3_order_independent_when_settled strcase.ToLowerCamel
           samplePayload samplePayloadReordered ∅ ["cfg"; "app.yaml"]).
  - exact samplePayload_reorder.
  - intros op1 op2 H1 H2. simpl in H1, H2.
    destruct H1 as [<-|[<-|[<-|[]]]]; destruct H2 as [<-|[<-|[<-|[]]]];
      first [ left; split; reflexivity
            | right; split; intros [k Hk]; vm_compute in Hk; discriminate Hk ].
Defined.

(** C3 as stated fails: the keys [a-b] and [a_b] both normalise to
    [aB], and the value found there is the one of the key ranged over
    last. *)
Lemma C3_order_counterexample :
  ~ (forall config config' values path,
       reorder_entries config config' ->
       snd (fst (parseConfig strcase.ToLowerCamel config values path))
       = snd (fst (parseConfig strcase.ToLowerCamel config' values path))).
Proof.
  intros H.
  specialize (H collidingPayload [("a_b", VScalar (SInt 2)); ("a-b", VScalar (SInt 1))]
                ∅ ["cfg"] (reorder_swap _ _ _)).
  apply (f_equal (fun values => render values ["cfg"; "aB"])) in H.
  vm_compute in H. discriminate H.
Qed.

(** ** Discriminators *)

Section Discriminators.

Variable ToLowerCamel : string -> string.

Lemma lastField_toCamelCase p :
  p <> [] -> lastField (toCamelCase ToLowerCamel p) = ToLowerCamel (lastField p).
Proof.
  unfold lastField, toCamelCase.
  induction p as [|f [|g p] IH]; intros Hne; [done|done|].
  specialize (IH ltac:(done)). simpl in *. exact IH.
Qed.

Lemma tryAdd_noDiscriminatorLeaf values op :
  noDiscriminatorLeaf values ->
  isDiscriminator (ToLowerCamel (lastField (fst op))) = false ->
  noDiscriminatorLeaf (tryAdd ToLowerCamel values op).
Proof.
  intros Hvalues Hop p s Hp. rewrite tryAdd_tryset in Hp. unfold tryset_at in Hp.
  destruct (SetNestedField_at [] values _ _) as [values'|e] eqn:E; [|eauto].
  destruct (SetNestedField_leaves _ _ _ _ _ _ _ E Hp) as [[-> _]|Hold]; [|eauto].
  rewrite lastField_toCamelCase; [done|].
  intros Hnil. rewrite Hnil in E. discriminate E.
Qed.

Lemma fold_tryAdd_noDiscriminatorLeaf ops values :
  noDiscriminatorLeaf values ->
  (forall op, In op ops -> isDiscriminator (ToLowerCamel (lastField (fst op))) = false) ->
  noDiscriminatorLeaf (fold_left (tryAdd ToLowerCamel) ops values).
Proof.
  revert values. induction ops as [|op ops IH]; intros values Hvalues Hops; [done|].
  simpl. apply IH.
  - apply tryAdd_noDiscriminatorLeaf; [done|]. apply Hops. by left.
  - intros op' Hin. apply Hops. by right.
Qed.

Lemma discriminators_cons k v config path :
  discriminators ((k, v) :: config) path
  = (discriminators_entry k v path ++ discriminators config path)%list.
Proof. reflexivity. Qed.

Lemma rangeConfig_discriminators config path :
  Forall (fun kv => forall k values path,
            discriminators_entry k
              (fst (fst (parseConfig_entry ToLowerCamel k (snd kv) values path))) path
            = discriminators_entry k (snd kv) path) config ->
  forall values,
    discriminators (fst (fst (parseConfig ToLowerCamel config values path))) path
    = discriminators config path.
Proof.
  induction 1 as [|[k v] config Hv _ IH]; intros values; [done|].
  unfold parseConfig in *. cbn [rangeConfig].
  specialize (Hv k values path). cbn [snd] in Hv.
  destruct (parseConfig_entry _ k v values path) as [[v' values1] logs1].
  cbn [fst] in Hv. specialize (IH values1).
  destruct (rangeConfig _ config values1) as [[config' values2] logs2].
  cbn [fst] in *. by rewrite !discriminators_cons, Hv, IH.
Qed.

(** What sits under [kind] or [apiVersion] is the same before and after. *)
Lemma parseConfig_entry_discriminators v :
  forall k values path,
    discriminators_entry k
      (fst (fst (parseConfig_entry ToLowerCamel k v values path))) path
    = discriminators_entry k v path.
Proof.
  induction v as [s|l|t IH|t|] using value_nested_ind; intros k values path;
    try done.
  - simpl. destruct (isDiscriminator k) eqn:Ek; simpl; [by rewrite Ek|].
    destruct (Add _ _ _ _) as [[templated|e] values']; simpl; by rewrite Ek.
  - rewrite parseConfig_entry_map.
    pose proof (rangeConfig_discriminators t (path ++ [k]) IH values) as H.
    by destruct (parseConfig _ t values _) as [[t' values'] logs].
Qed.

(** C2, as the code has it: the structural extractor leaves every scalar
    under [kind] or [apiVersion] in place, at any depth, and makes no
    insertion for it; when no other key of the payload normalises to
    one of those names, a values tree without a leaf under them stays
    so.  (The property extractor and plain data entries make no such
    exception.) *)
Theorem C2_structural_extractor_spares_discriminators config values path :
  noDiscriminatorLeaf values ->
  (forall op, In op (adds config path) ->
              isDiscriminator (ToLowerCamel (lastField (fst op))) = false) ->
  noDiscriminatorLeaf (snd (fst (parseConfig ToLowerCamel config values path)))
  /\ discriminators (fst (fst (parseConfig ToLowerCamel config values path))) path
     = discriminators config path.
Proof.
  intros Hvalues Hkeys. split.
  - rewrite parseConfig_values. by apply fold_tryAdd_noDiscriminatorLeaf.
  - apply rangeConfig_discriminators, Forall_forall.
    intros kv _ k values' path'. apply parseConfig_entry_discriminators.
Qed.

End Discriminators.

Lemma noDiscriminatorLeaf_empty : noDiscriminatorLeaf ∅.
Proof.
  intros p s H. destruct p as [|f p]; [done|].
  by rewrite lookup_path_empty in H.
Qed.

Lemma C2_structural_extractor_spares_discriminators_witness :
  noDiscriminatorLeaf
    (snd (fst (parseConfig strcase.ToLowerCamel samplePayload ∅ ["cfg"; "app.yaml"])))
  /\ discriminators
       (fst (fst (parseConfig strcase.ToLowerCamel samplePayload ∅ ["cfg"; "app.yaml"])))
       ["cfg"; "app.yaml"]
     = [(["cfg"; "app.yaml"; "kind"], SString "Deployment");
        (["cfg"; "app.yaml"; "db"; "apiVersion"], SString "v1")].
Proof.
  apply (C2_structural_extractor_spares_discriminators strcase.ToLowerCamel
           samplePayload ∅ ["cfg"; "app.yaml"]).
  - exact noDiscriminatorLeaf_empty.
  - intros op Hin. simpl in Hin.
    destruct Hin as [<-|[<-|[<-|[]]]]; reflexivity.
Defined.

(** C2 as stated fails outside the structural extractor: a property
    line [kind=Pod] and a plain data entry [apiVersion] are both
    stored as leaves and replaced by placeholders. *)
Lemma C2_discriminator_counterexample :
  parseProperties strcase.ToLowerCamel ("kind=Pod" ++ NL) ["cfg"; "app.properties"] ∅
  = (Ok ("kind={{ .Values.cfg.appProperties.kind }}" ++ NL),
     {[ "cfg" := Node {[ "appProperties" := Node {[ "kind" := Leaf (SString "Pod") ]} ]} ]})
  /\ parseMapData strcase.ToLowerCamel noYaml noYamlOut [("apiVersion", "v1")] "cfg"
     = ([("apiVersion", "{{ .Values.cfg.apiVersion }}")],
        {[ "cfg" := Node {[ "apiVersion" := Leaf (SString "v1") ]} ]},
        []).
Proof. split; vm_compute; reflexivity. Qed.

(** ** Images of containers that are not overwritten *)

Section ImagesKept.

Variable ToLowerCamel : string -> string.
Variable DomainEnv DomainKey : string.





End ImagesKept.

(** ** Round trip *)

Section RoundTrip.

Variable ToLowerCamel : string -> string.
Variable DomainEnv DomainKey : string.

#[local] Abbreviation norm := (toCamelCase ToLowerCamel).
#[local] Abbreviation tryAdd' := (tryAdd ToLowerCamel).

(** One insertion that succeeds: the placeholder names the normalised
    path and the leaf is read there. *)
Lemma Add_render values s p ph values' :
  Add ToLowerCamel values s p = (Ok ph, values') ->
  ph = placeholder (norm p) /\ render values' (norm p) = Some s.
Proof.
  unfold Add, SetNestedField, render. intros H.
  destruct (SetNestedField_at [] values (Leaf s) (norm p)) as [values1|e] eqn:E;
    [|discriminate].
  injection H as <- <-. split; [done|].
  by rewrite (lookup_path_SetNestedField _ _ _ _ _ E).
Qed.

Lemma tryAdd_Add values s p r values' :
  Add ToLowerCamel values s p = (r, values') -> tryAdd' values (p, s) = values'.
Proof. unfold tryAdd. simpl. by intros ->. Qed.




Lemma append_nil_r (a : string) : a ++ EmptyString = a.
Proof. induction a as [|x a IH]; [done|]. exact (f_equal (String x) IH). Qed.

(** A property text that goes through: its lines all split in two, the
    text is the placeholders in the order of the lines, and the values
    are the insertions made in turn. *)
Lemma parseProperties_loop_ok lines path values res out values' :
  parseProperties_loop ToLowerCamel lines path values res = (Ok out, values') ->
  out = res ++ propertyText ToLowerCamel lines path
  /\ values' = fold_left tryAdd' (propertyOps lines path) values
  /\ Forall (fun line => exists n v, strings.Split line "=" = [n; v]) lines.
Proof.
  revert values res. induction lines as [|line lines IH]; intros values res H; simpl in *.
  - injection H as <- <-. by rewrite append_nil_r.
  - destruct (strings.Split line "=") as [|propName [|propVal [|]]] eqn:Es;
      try discriminate.
    destruct (Add _ values _ _) as [[templatedVal|e] values1] eqn:Ea; [|discriminate].
    destruct (IH _ _ H) as (-> & -> & Hall).
    destruct (Add_render _ _ _ _ _ Ea) as [-> _].
    split; [by rewrite !append_assoc|].
    split; [|constructor; eauto].
    cbn [fold_left]. by rewrite (tryAdd_Add _ _ _ _ _ Ea).
Qed.




End RoundTrip.



(** * Further properties *)

(** ** ConfigMap: what parseMapData and Process always do *)

Section ConfigMapMore.

Variable ToLowerCamel : string -> string.
Variable yaml_Unmarshal : string -> result (list (string * value)).
Variable yaml_Marshal : list (string * value) -> result string.
Variable yamlformat_Marshal : value -> nat -> result string.
Variable ProcessMetadata : Unstructured -> result (string * string).

#[local] Abbreviation loop' :=
  (parseMapData_loop ToLowerCamel yaml_Unmarshal yaml_Marshal).
#[local] Abbreviation entry' :=
  (parseMapData_entry ToLowerCamel yaml_Unmarshal yaml_Marshal).
#[local] Abbreviation Process' :=
  (configMap_Process ToLowerCamel yaml_Unmarshal yaml_Marshal yamlformat_Marshal
     ProcessMetadata).

(** X1: [parseMapData] hands back the keys it was given, in the order
    it ranged over them: no entry is added, dropped or renamed, whatever
    happens to the texts. *)
Theorem parseMapData_keeps_keys data configName :
  map fst (fst (fst (parseMapData ToLowerCamel yaml_Unmarshal yaml_Marshal
                       data configName)))
  = map fst data.
Proof.
  unfold parseMapData. generalize (∅ : Values).
  induction data as [|[key value] data IH]; intros values; [done|].
  cbn [parseMapData_loop].
  destruct (entry' key value configName values) as [[value' values1] logs1].
  specialize (IH values1).
  destruct (loop' data configName values1) as [[data' values2] logs2].
  cbn [fst map] in *. by rewrite IH.
Qed.

Lemma appendImmutable_prefix obj template t :
  appendImmutable yamlformat_Marshal obj template = Ok t ->
  exists rest, t = template ++ rest.
Proof.
  unfold appendImmutable. destruct (NestedBool _ _) as [b|].
  - destruct (yamlformat_Marshal _ _) as [str|]; [|discriminate].
    intros [= <-]. eauto.
  - intros [= <-]. exists EmptyString. by rewrite append_nil_r.
Qed.

Lemma appendBinaryData_prefix obj template t :
  appendBinaryData yamlformat_Marshal obj template = Ok t ->
  exists rest, t = template ++ rest.
Proof.
  unfold appendBinaryData. destruct (NestedStringMap _ _) as [b|].
  - destruct (yamlformat_Marshal _ _) as [str|]; [|discriminate].
    intros [= <-]. eauto.
  - intros [= <-]. exists EmptyString. by rewrite append_nil_r.
Qed.

(** X2: whatever its data holds, a ConfigMap is accepted as soon as its
    metadata is processed and the marshaller does not fail; the file is
    [<name>.yaml], the text starts with the metadata block, and the
    values are those [parseMapData] built from the [data] field alone
    ([immutable] and [binaryData] never reach them). *)
Theorem configMap_Process_accepts obj name template :
  gvk obj = configMapGVC ->
  ProcessMetadata obj = Ok (name, template) ->
  (forall v n, isOk (yamlformat_Marshal v n) = true) ->
  exists r l,
    Process' obj = accepted r l
    /\ cm_name r = name ++ ".yaml"
    /\ (exists rest, cm_data r = template ++ rest)
    /\ cm_values r =
       match NestedStringMap (Object obj) "data" with
       | Some data =>
           snd (fst (parseMapData ToLowerCamel yaml_Unmarshal yaml_Marshal data name))
       | None => ∅
       end.
Proof.
  intros Hgvk Hmeta Hmarshal.
  assert (forall v n, exists str, yamlformat_Marshal v n = Ok str) as Hm.
  { intros v n. specialize (Hmarshal v n).
    destruct (yamlformat_Marshal v n); [eauto|discriminate]. }
  unfold configMap_Process.
  rewrite Hgvk, bool_decide_eq_true_2 by done. cbn [negb]. rewrite Hmeta.
  destruct (appendImmutable yamlformat_Marshal obj template) as [t1|e] eqn:E1.
  2:{ exfalso. unfold appendImmutable in E1. destruct (NestedBool _ _) as [b|]; [|done].
      destruct (Hm (VMap [("immutable", VScalar (SBool b))]) 0%nat) as [str Hs].
      by rewrite Hs in E1. }
  destruct (appendBinaryData yamlformat_Marshal obj t1) as [t2|e] eqn:E2.
  2:{ exfalso. unfold appendBinaryData in E2.
      destruct (NestedStringMap _ "binaryData") as [b|]; [|done].
      destruct (Hm (VMap [("binaryData", ofStringMap b)]) 0%nat) as [str Hs].
      by rewrite Hs in E2. }
  destruct (appendImmutable_prefix _ _ _ E1) as [rest1 ->].
  destruct (appendBinaryData_prefix _ _ _ E2) as [rest2 ->].
  destruct (NestedStringMap (Object obj) "data") as [data|].
  - destruct (parseMapData _ _ _ data name) as [[data' values] logs].
    destruct (Hm (VMap [("data", ofStringMap data')]) 0%nat) as [dataStr ->].
    eexists _, _. split; [reflexivity|]. split; [done|]. split; [|done].
    cbn [cm_data]. eexists. by rewrite !append_assoc.
  - eexists _, _. split; [reflexivity|]. split; [done|]. split; [|done].
    cbn [cm_data]. eexists. by rewrite !append_assoc.
Qed.

(** X3: an error [Process] returns for a ConfigMap is the error of the
    metadata step or of a marshaller call; a text that does not parse is
    never the resource's error. *)
Theorem configMap_Process_error_origin obj e :
  err (configMap_Process ToLowerCamel yaml_Unmarshal yaml_Marshal yamlformat_Marshal
         ProcessMetadata obj) = Some e ->
  ProcessMetadata obj = Err e \/ exists v n, yamlformat_Marshal v n = Err e.
Proof.
  unfold configMap_Process.
  destruct (negb (bool_decide (gvk obj = configMapGVC))); [discriminate|].
  destruct (ProcessMetadata obj) as [[name template]|e0]; [|intros [= ->]; by left].
  unfold appendImmutable.
  destruct (NestedBool _ _) as [b|].
  - destruct (yamlformat_Marshal (VMap [("immutable", _)]) 0) as [s1|e1] eqn:E1;
      [|intros [= ->]; right; eauto].
    unfold appendBinaryData.
    destruct (NestedStringMap _ "binaryData") as [bd|].
    + destruct (yamlformat_Marshal (VMap [("binaryData", _)]) 0) as [s2|e2] eqn:E2;
        [|intros [= ->]; right; eauto].
      destruct (NestedStringMap _ "data") as [data|]; [|discriminate].
      destruct (parseMapData _ _ _ data name) as [[data' values] logs].
      destruct (yamlformat_Marshal (VMap [("data", _)]) 0) as [s3|e3] eqn:E3;
        [discriminate|intros [= ->]; right; eauto].
    + destruct (NestedStringMap _ "data") as [data|]; [|discriminate].
      destruct (parseMapData _ _ _ data name) as [[data' values] logs].
      destruct (yamlformat_Marshal (VMap [("data", _)]) 0) as [s3|e3] eqn:E3;
        [discriminate|intros [= ->]; right; eauto].
  - unfold appendBinaryData.
    destruct (NestedStringMap _ "binaryData") as [bd|].
    + destruct (yamlformat_Marshal (VMap [("binaryData", _)]) 0) as [s2|e2] eqn:E2;
        [|intros [= ->]; right; eauto].
      destruct (NestedStringMap _ "data") as [data|]; [|discriminate].
      destruct (parseMapData _ _ _ data name) as [[data' values] logs].
      destruct (yamlformat_Marshal (VMap [("data", _)]) 0) as [s3|e3] eqn:E3;
        [discriminate|intros [= ->]; right; eauto].
    + destruct (NestedStringMap _ "data") as [data|]; [|discriminate].
      destruct (parseMapData _ _ _ data name) as [[data' values] logs].
      destruct (yamlformat_Marshal (VMap [("data", _)]) 0) as [s3|e3] eqn:E3;
        [discriminate|intros [= ->]; right; eauto].
Qed.

End ConfigMapMore.

Lemma configMap_Process_accepts_witness :
  exists r l,
    configMap_Process strcase.ToLowerCamel sampleYaml sampleYamlOut quotingMarshal
      sampleMetadata greetingConfigMap = accepted r l
    /\ cm_name r = "cfg" ++ ".yaml"
    /\ (exists rest, cm_data r = ("metadata: ..." ++ NL) ++ rest)
    /\ cm_values r =
       match NestedStringMap (Object greetingConfigMap) "data" with
       | Some data =>
           snd (fst (parseMapData strcase.ToLowerCamel sampleYaml sampleYamlOut data "cfg"))
       | None => ∅
       end.
Proof.
  apply configMap_Process_accepts.
  - reflexivity.
  - reflexivity.
  - intros v n. unfold quotingMarshal. repeat case_match; reflexivity.
Defined.

Lemma configMap_Process_error_origin_witness :
  sampleMetadata greetingConfigMap = Err "yaml: not marshalled"
  \/ exists v n, failingMarshal v n = Err "yaml: not marshalled".
Proof.
  apply (configMap_Process_error_origin strcase.ToLowerCamel sampleYaml sampleYamlOut
           failingMarshal sampleMetadata greetingConfigMap).
  vm_compute. reflexivity.
Defined.

(** ** Single quotes *)



Section Quotes.

Variable ToLowerCamel : string -> string.
Variable yaml_Unmarshal : string -> result (list (string * value)).
Variable yaml_Marshal : list (string * value) -> result string.
Variable yamlformat_Marshal : value -> nat -> result string.
Variable ProcessMetadata : Unstructured -> result (string * string).


End Quotes.

(** ** ConfigMap: plain entries *)

Lemma noTopLeaf_empty : noTopLeaf ∅.
Proof. intros f s H. by rewrite lookup_empty in H. Qed.

Lemma Split_nonempty s sep : strings.Split s sep <> [].
Proof.
  induction s as [|a s IH]; [done|]. simpl.
  destruct (Ascii.eqb a sep); [done|]. by destruct (strings.Split s sep).
Qed.

Section Plain.

Variable ToLowerCamel : string -> string.
Variable yaml_Unmarshal : string -> result (list (string * value)).
Variable yaml_Marshal : list (string * value) -> result string.

#[local] Abbreviation tryAdd'' := (tryAdd ToLowerCamel).

(** An insertion below the first level leaves the first level free of
    scalars. *)
Lemma tryAdd_noTopLeaf values op :
  noTopLeaf values -> (2 <= length (fst op))%nat ->
  noTopLeaf (tryAdd'' values op).
Proof.
  intros Hvalues Hlen f s Hf. rewrite tryAdd_tryset in Hf. unfold tryset_at in Hf.
  destruct (SetNestedField_at [] values _ _) as [values'|e] eqn:E; [|eauto].
  rewrite <- lookup_path_one in Hf.
  destruct (SetNestedField_leaves _ _ _ _ _ _ _ E Hf) as [[Heq _]|Hold].
  - apply (f_equal (@length string)) in Heq. unfold toCamelCase in Heq.
    rewrite length_map in Heq. simpl in Heq. lia.
  - rewrite lookup_path_one in Hold. eauto.
Qed.

Lemma fold_tryAdd_noTopLeaf ops values :
  noTopLeaf values -> Forall (fun op => (2 <= length (fst op))%nat) ops ->
  noTopLeaf (fold_left tryAdd'' ops values).
Proof.
  revert values. induction ops as [|op ops IH]; intros values Hvalues Hops; [done|].
  apply Forall_cons in Hops as [Hop Hops]. simpl. apply IH; [|done].
  by apply tryAdd_noTopLeaf.
Qed.

(** Every insertion of [parseConfig] is longer than the path it was
    given. *)
Lemma adds_entry_longer v :
  forall k path,
    Forall (fun op => (length path < length (fst op))%nat) (adds_entry k v path).
Proof.
  induction v as [s|l|t IH|t|] using value_nested_ind; intros k path;
    try (by apply Forall_nil).
  - simpl. destruct (isDiscriminator k); [by apply Forall_nil|].
    apply Forall_cons. split; [|by apply Forall_nil].
    simpl. rewrite length_app. simpl. lia.
  - rewrite adds_entry_map. unfold adds.
    induction IH as [|[k' v'] t Hv _ IHt]; [by apply Forall_nil|].
    simpl. apply Forall_app. split; [|exact IHt].
    eapply Forall_impl; [apply (Hv k' (path ++ [k])%list)|].
    intros op. rewrite length_app. simpl. lia.
Qed.

Lemma adds_longer config path :
  Forall (fun op => (length path < length (fst op))%nat) (adds config path).
Proof.
  unfold adds. induction config as [|[k v] config IH]; [by apply Forall_nil|].
  simpl. apply Forall_app. split; [apply adds_entry_longer|exact IH].
Qed.

Lemma parseProperties_loop_noTopLeaf lines path values res :
  noTopLeaf values -> path <> [] ->
  noTopLeaf (snd (parseProperties_loop ToLowerCamel lines path values res)).
Proof.
  intros Hvalues Hpath. revert values res Hvalues.
  induction lines as [|line lines IH]; intros values res Hvalues; [done|]. simpl.
  destruct (strings.Split line "=") as [|propName [|propVal [|]]]; try done.
  destruct (Add _ values _ _) as [r values'] eqn:Ea.
  assert (noTopLeaf values') as Hvalues'.
  { rewrite <- (tryAdd_Add _ _ _ _ _ _ Ea). apply tryAdd_noTopLeaf; [done|].
    simpl. rewrite length_app.
    pose proof (Split_nonempty propName ".") as Hs.
    destruct path; [done|]. destruct (strings.Split propName "."); [done|].
    simpl. lia. }
  destruct r; [by apply IH|done].
Qed.

Lemma parseMapData_entry_noTopLeaf key value configName values :
  noTopLeaf values ->
  noTopLeaf (snd (fst (parseMapData_entry ToLowerCamel yaml_Unmarshal yaml_Marshal
                         key value configName values))).
Proof.
  intros Hvalues. unfold parseMapData_entry.
  destruct (strings.HasSuffix key ".yaml" || strings.HasSuffix key ".yml").
  - unfold parseYaml. destruct (yaml_Unmarshal value) as [config|e]; [|done].
    pose proof (parseConfig_values ToLowerCamel config values [configName; key]) as Hv.
    destruct (parseConfig _ config values _) as [[config' values'] logs].
    simpl in Hv.
    assert (noTopLeaf values') as Hvalues'.
    { rewrite Hv. apply fold_tryAdd_noTopLeaf; [done|].
      eapply Forall_impl; [apply adds_longer|]. simpl. intros op. lia. }
    by destruct (yaml_Marshal config').
  - destruct (strings.HasSuffix key ".properties").
    + pose proof (parseProperties_loop_noTopLeaf (propertyLines value)
                    [configName; key] values EmptyString Hvalues ltac:(done)) as H.
      unfold parseProperties. fold (propertyLines value).
      by destruct (parseProperties_loop _ _ _ _ _) as [[|] ?].
    + destruct (Add _ values _ _) as [r values'] eqn:Ea.
      assert (noTopLeaf values') as Hvalues'.
      { rewrite <- (tryAdd_Add _ _ _ _ _ _ Ea). apply tryAdd_noTopLeaf; [done|].
        simpl. lia. }
      by destruct r.
Qed.

Lemma parseMapData_loop_noTopLeaf data configName values :
  noTopLeaf values ->
  noTopLeaf (snd (fst (parseMapData_loop ToLowerCamel yaml_Unmarshal yaml_Marshal
                         data configName values))).
Proof.
  revert values. induction data as [|[key value] data IH]; intros values Hvalues; [done|].
  cbn [parseMapData_loop].
  pose proof (parseMapData_entry_noTopLeaf key value configName values Hvalues) as H1.
  destruct (parseMapData_entry _ _ _ key value configName values)
    as [[value' values1] logs1].
  specialize (IH values1 H1).
  by destruct (parseMapData_loop _ _ _ data configName values1) as [[data' values2] logs2].
Qed.

(** With no scalar at the first level, a path of two fields can always
    be set. *)
Lemma Add_two_fields values s a b :
  noTopLeaf values ->
  exists values',
    Add ToLowerCamel values s [a; b]
    = (Ok (placeholder [ToLowerCamel a; ToLowerCamel b]), values').
Proof.
  intros Hvalues. unfold Add, SetNestedField. simpl toCamelCase.
  destruct (SetNestedField_at [] values (Leaf s) [ToLowerCamel a; ToLowerCamel b])
    as [values'|e] eqn:E; [eauto|].
  exfalso. destruct (SetNestedField_fails _ _ _ _ _ E) as [|(r & s' & Hpre & Hne & Hr)];
    [done|].
  destruct r as [|r0 [|r1 r]]; [done| |].
  - rewrite lookup_path_one in Hr. eauto.
  - apply prefix_length in Hpre as Hlen. simpl in Hlen.
    destruct r; [|simpl in Hlen; lia].
    destruct Hpre as [k Hk]. by simplify_list_eq.
Qed.

(** X5: an entry whose key ends in none of [.yaml], [.yml],
    [.properties] is always templated: wherever it stands in the data,
    its text becomes the placeholder of [<configName>.<key>], both
    normalised.  The insertion cannot fail because no extractor ever
    puts a scalar at the first level of the values. *)
Theorem parseMapData_plain_entry_templated configName pre key value post :
  plainKey key ->
  nth_error (fst (fst (parseMapData ToLowerCamel yaml_Unmarshal yaml_Marshal
                         (pre ++ (key, value) :: post) configName)))
            (length pre)
  = Some (key, placeholder [ToLowerCamel configName; ToLowerCamel key]).
Proof.
  intros (Hyaml & Hyml & Hprop). unfold parseMapData.
  rewrite parseMapData_loop_app.
  pose proof (parseMapData_loop_length ToLowerCamel yaml_Unmarshal yaml_Marshal
                pre configName ∅) as Hlen.
  pose proof (parseMapData_loop_noTopLeaf pre configName ∅ noTopLeaf_empty) as Htop.
  destruct (parseMapData_loop _ _ _ pre configName ∅) as [[pre' values1] logs1].
  cbn [fst snd] in Hlen, Htop. cbn [parseMapData_loop].
  unfold parseMapData_entry. rewrite Hyaml, Hyml, Hprop. cbn [orb].
  destruct (Add_two_fields values1 (SString value) configName key Htop) as [values2 ->].
  destruct (parseMapData_loop _ _ _ post configName values2) as [[post' values3] logs3].
  cbn [fst]. rewrite <- Hlen.
  by rewrite nth_error_app2, Nat.sub_diag by lia.
Qed.

End Plain.


Lemma parseMapData_plain_entry_templated_witness :
  nth_error
    (fst (fst (parseMapData strcase.ToLowerCamel sampleYaml sampleYamlOut
                 ([("app.properties", "timeout=30" ++ NL)]
                  ++ ("greeting", "hello") :: [("farewell", "bye")]) "cfg")))
    (length [("app.properties", "timeout=30" ++ NL)])
  = Some ("greeting",
          placeholder [strcase.ToLowerCamel "cfg"; strcase.ToLowerCamel "greeting"]).
Proof.
  apply parseMapData_plain_entry_templated. repeat split; reflexivity.
Defined.

(** ** The property extractor: lines *)

Lemma Split_length s sep :
  length (strings.Split s sep) = S (countByte sep s).
Proof.
  induction s as [|a s IH]; [done|]. simpl.
  destruct (Ascii.eqb a sep); simpl; [by rewrite IH|].
  destruct (strings.Split s sep); simpl in *; lia.
Qed.

Lemma length_append (a b : string) :
  String.length (a ++ b) = (String.length a + String.length b)%nat.
Proof. induction a as [|x a IH]; [done|]. simpl. by rewrite IH. Qed.

Lemma substring_append_l (a b : string) :
  substring 0 (String.length a) (a ++ b) = a.
Proof. induction a as [|x a IH]; simpl; [by destruct b|]. by rewrite IH. Qed.

Lemma substring_append_r (a b : string) :
  substring (String.length a) (String.length b) (a ++ b) = b.
Proof. induction a as [|x a IH]; simpl; [apply substring_all|done]. Qed.

Lemma HasSuffix_append (a suffix : string) :
  strings.HasSuffix (a ++ suffix) suffix = true.
Proof.
  unfold strings.HasSuffix. rewrite length_append.
  replace (String.length a + String.length suffix - String.length suffix)%nat
    with (String.length a) by lia.
  rewrite substring_append_r, String.eqb_refl.
  apply andb_true_iff. split; [apply Nat.leb_le; lia|done].
Qed.

(** [TrimSuffix] takes one newline off the end, and only one. *)
Lemma TrimSuffix_append (a suffix : string) :
  strings.TrimSuffix (a ++ suffix) suffix = a.
Proof.
  unfold strings.TrimSuffix. rewrite HasSuffix_append, length_append.
  replace (String.length a + String.length suffix - String.length suffix)%nat
    with (String.length a) by lia.
  apply substring_append_l.
Qed.

Lemma TrimSuffix_none s :
  last_byte s <> Some nl -> strings.TrimSuffix s NL = s.
Proof.
  intros Hlast. unfold strings.TrimSuffix.
  destruct (strings.HasSuffix s NL) eqn:E; [|done].
  exfalso. apply HasSuffix_app in E as [pre ->].
  apply Hlast. unfold NL. by rewrite last_byte_app.
Qed.

Section Lines.

Variable ToLowerCamel : string -> string.

(** X6: one newline at the end of a property text is as good as none:
    the text with it and the text without it give the same result,
    whose lines all end in a newline.  (A second newline at the end is
    an empty line, which does not parse.) *)
Theorem parseProperties_trailing_newline text path values :
  last_byte text <> Some nl ->
  parseProperties ToLowerCamel (text ++ NL) path values
  = parseProperties ToLowerCamel text path values.
Proof.
  intros Hlast. unfold parseProperties.
  by rewrite TrimSuffix_append, TrimSuffix_none.
Qed.

(** X7: a property text is rewritten only if each of its lines holds
    exactly one [=]: an empty text, an empty line, a line without [=]
    and a value that itself holds a [=] all make it fail. *)
Theorem parseProperties_one_equals_sign_per_line text path values out values' :
  parseProperties ToLowerCamel text path values = (Ok out, values') ->
  Forall (fun line => countByte "=" line = 1%nat) (propertyLines text).
Proof.
  intros Hrun. unfold parseProperties in Hrun. fold (propertyLines text) in Hrun.
  destruct (parseProperties_loop_ok _ _ _ _ _ _ _ Hrun) as (_ & _ & Hall).
  eapply Forall_impl; [exact Hall|].
  intros line (n & v & Hs). simpl in Hs.
  pose proof (Split_length line "=") as Hlen. rewrite Hs in Hlen. simpl in Hlen. lia.
Qed.

End Lines.

Lemma parseProperties_trailing_newline_witness :
  parseProperties strcase.ToLowerCamel ("timeout=30" ++ NL) ["cfg"] ∅
  = parseProperties strcase.ToLowerCamel "timeout=30" ["cfg"] ∅.
Proof.
  apply parseProperties_trailing_newline. vm_compute. discriminate.
Defined.

Lemma parseProperties_one_equals_sign_per_line_witness :
  Forall (fun line => countByte "=" line = 1%nat)
    (propertyLines ("timeout=30" ++ NL ++ "retries=5" ++ NL)).
Proof.
  eapply (parseProperties_one_equals_sign_per_line strcase.ToLowerCamel
            ("timeout=30" ++ NL ++ "retries=5" ++ NL) ["cfg"] ∅).
  vm_compute. reflexivity.
Defined.

(** ** The structural extractor: shape, warnings, and runs without
    collision *)

Section StructuralMore.

Variable ToLowerCamel : string -> string.

#[local] Abbreviation norm' := (toCamelCase ToLowerCamel).
#[local] Abbreviation tryAdd3 := (tryAdd ToLowerCamel).

Lemma rangeConfig_sameShape config path :
  Forall (fun kv => forall k values path,
            sameShape (snd kv)
              (fst (fst (parseConfig_entry ToLowerCamel k (snd kv) values path)))) config ->
  forall values,
    Forall2 (fun kv kv' => fst kv = fst kv' /\ sameShape (snd kv) (snd kv'))
      config (fst (fst (parseConfig ToLowerCamel config values path))).
Proof.
  induction 1 as [|[k v] config Hv _ IH]; intros values; [by constructor|].
  unfold parseConfig in *. cbn [rangeConfig].
  specialize (Hv k values path). cbn [snd] in Hv.
  destruct (parseConfig_entry _ k v values path) as [[v' values1] logs1].
  specialize (IH values1).
  destruct (rangeConfig _ config values1) as [[config' values2] logs2].
  cbn [fst] in *. by constructor.
Qed.

Lemma parseConfig_entry_sameShape v :
  forall k values path,
    sameShape v (fst (fst (parseConfig_entry ToLowerCamel k v values path))).
Proof.
  induction v as [s|l|t IH|t|] using value_nested_ind; intros k values path;
    try (by constructor).
  - simpl. destruct (isDiscriminator k); [by constructor|].
    destruct (Add _ _ _ _) as [[templated|e] values']; by constructor.
  - rewrite parseConfig_entry_map.
    pose proof (rangeConfig_sameShape t (path ++ [k]) IH values) as H.
    destruct (parseConfig _ t values _) as [[t' values'] logs].
    by constructor.
Qed.

(** X8: [parseConfig] keeps the shape of the payload: at every depth
    the same keys in the same order, a scalar where there was one, and
    every sequence, [nil] and interface-keyed map exactly as it was. *)
Theorem parseConfig_keeps_shape config values path :
  sameShape (VMap config)
    (VMap (fst (fst (parseConfig ToLowerCamel config values path)))).
Proof.
  constructor. apply rangeConfig_sameShape, Forall_forall.
  intros kv _ k values' path'. apply parseConfig_entry_sameShape.
Qed.

Lemma warnings_cons k v config :
  warnings ((k, v) :: config) = (warnings_entry v ++ warnings config)%list.
Proof. reflexivity. Qed.




(** *** Runs in which no insertion is in the way of another *)

#[local] Abbreviation clearFor := (clearFor ToLowerCamel).

Lemma clearFor_step values op ops :
  clearFor values (op :: ops) ->
  exists values',
    Add ToLowerCamel values (snd op) (fst op)
    = (Ok (placeholder (norm' (fst op))), values')
    /\ clearFor values' ops.
Proof.
  intros [Hway Hfree].
  destruct (Hway op (or_introl eq_refl)) as [Hne Hop].
  unfold Add, SetNestedField.
  destruct (SetNestedField_at [] values (Leaf (snd op)) (norm' (fst op)))
    as [values'|e] eqn:E.
  - exists values'. split; [done|]. split.
    + intros op2 Hin. destruct (Hway op2 (or_intror Hin)) as [Hne2 Hop2].
      split; [done|]. intros r s Hpre Hneq Hr.
      destruct (SetNestedField_leaves _ _ _ _ _ _ _ E Hr) as [[-> _]|Hold].
      * apply Hneq. apply (Hfree op op2); simpl; auto.
      * eapply Hop2; eauto.
    + intros op1 op2 H1 H2. apply Hfree; by right.
  - exfalso.
    destruct (SetNestedField_fails _ _ _ _ _ E) as [Hnil|(r & s & Hpre & Hneq & Hr)].
    + destruct (fst op); [done|discriminate].
    + eapply Hop; eauto.
Qed.

Lemma clearFor_app values ops rest :
  clearFor values (ops ++ rest) ->
  clearFor (fold_left tryAdd3 ops values) rest.
Proof.
  revert values. induction ops as [|[p s] ops IH]; intros values H; [done|].
  destruct (clearFor_step values (p, s) (ops ++ rest) H) as (values' & Ea & H').
  cbn [fst snd] in Ea. cbn [fold_left app]. rewrite (tryAdd_Add _ _ _ _ _ _ Ea). by apply IH.
Qed.

Lemma templated_cons k v config path :
  templated ToLowerCamel ((k, v) :: config) path
  = (k, templated_entry ToLowerCamel k v path) :: templated ToLowerCamel config path.
Proof. reflexivity. Qed.

Lemma rangeConfig_clear config path :
  Forall (fun kv => forall k values path rest,
            clearFor values (adds_entry k (snd kv) path ++ rest) ->
            parseConfig_entry ToLowerCamel k (snd kv) values path
            = (templated_entry ToLowerCamel k (snd kv) path,
               fold_left tryAdd3 (adds_entry k (snd kv) path) values,
               warnings_entry (snd kv))) config ->
  forall values rest,
    clearFor values (adds config path ++ rest) ->
    parseConfig ToLowerCamel config values path
    = (templated ToLowerCamel config path,
       fold_left tryAdd3 (adds config path) values,
       warnings config).
Proof.
  induction 1 as [|[k v] config Hv _ IH]; intros values rest Hclear; [done|].
  rewrite adds_cons, <- app_assoc in Hclear.
  unfold parseConfig in *. cbn [rangeConfig].
  pose proof (Hv k values path _ Hclear) as Hv'. cbn [snd] in Hv'. rewrite Hv'.
  rewrite (IH _ rest (clearFor_app _ _ _ Hclear)).
  by rewrite templated_cons, warnings_cons, adds_cons, fold_left_app.
Qed.

Lemma parseConfig_entry_clear v :
  forall k values path rest,
    clearFor values (adds_entry k v path ++ rest) ->
    parseConfig_entry ToLowerCamel k v values path
    = (templated_entry ToLowerCamel k v path,
       fold_left tryAdd3 (adds_entry k v path) values,
       warnings_entry v).
Proof.
  induction v as [s|l|t IH|t|] using value_nested_ind; intros k values path rest Hclear;
    try done.
  - simpl in *. destruct (isDiscriminator k); [done|].
    destruct (clearFor_step _ _ _ Hclear) as (values' & Ea & _).
    simpl in Ea. rewrite Ea. simpl. by rewrite (tryAdd_Add _ _ _ _ _ _ Ea).
  - rewrite parseConfig_entry_map. rewrite adds_entry_map in Hclear.
    by rewrite (rangeConfig_clear t (path ++ [k]) IH values rest Hclear).
Qed.

Lemma wayFree_empty p : wayFree ∅ p.
Proof.
  intros r s _ _ Hr. destruct r as [|f r]; [done|].
  by rewrite lookup_path_empty in Hr.
Qed.

(** X10: on empty values, a payload none of whose insertions goes
    through the path of another is rewritten in full: every scalar that
    is not under [kind] or [apiVersion] becomes the placeholder of its
    normalised path, the values are all the insertions made in turn, and
    the log holds the warnings only: no insertion fails. *)
Theorem parseConfig_without_collision config path :
  prefixFree ToLowerCamel (adds config path) ->
  parseConfig ToLowerCamel config ∅ path
  = (templated ToLowerCamel config path,
     fold_left tryAdd3 (adds config path) ∅,
     warnings config).
Proof.
  intros Hfree. apply (rangeConfig_clear config path) with (rest := []).
  - apply Forall_forall. intros kv _ k values' path' rest. apply parseConfig_entry_clear.
  - rewrite app_nil_r. split; [|done].
    intros op Hin. split; [|apply wayFree_empty].
    pose proof (adds_longer config path) as Hlen.
    rewrite List.Forall_forall in Hlen. specialize (Hlen op Hin).
    destruct (fst op); [simpl in Hlen; lia|done].
Qed.

(** X11: on empty values, a property text whose lines hold one [=] each
    and none of whose names goes through another is rewritten in full:
    the text is the lines with their placeholders, and the values are
    all the insertions made in turn. *)
Theorem parseProperties_without_collision text path :
  Forall (fun line => countByte "=" line = 1%nat) (propertyLines text) ->
  prefixFree ToLowerCamel (propertyOps (propertyLines text) path) ->
  parseProperties ToLowerCamel text path ∅
  = (Ok (propertyText ToLowerCamel (propertyLines text) path),
     fold_left tryAdd3 (propertyOps (propertyLines text) path) ∅).
Proof.
  intros Hlines Hfree. unfold parseProperties. fold (propertyLines text).
  assert (clearFor ∅ (propertyOps (propertyLines text) path)) as Hclear.
  { split; [|done]. intros op Hin. split; [|apply wayFree_empty].
    clear Hfree. induction Hlines as [|line lines Hline _ IH]; [done|].
    simpl in Hin. destruct (strings.Split line "=") as [|n [|v [|]]]; try done.
    destruct Hin as [<-|Hin]; [|by apply IH].
    simpl. pose proof (Split_nonempty n ".").
    destruct path; [done|discriminate]. }
  clear Hfree.
  change (Ok (propertyText ToLowerCamel (propertyLines text) path))
    with (@Ok string (EmptyString ++ propertyText ToLowerCamel (propertyLines text) path)).
  revert Hlines Hclear. generalize EmptyString. generalize (∅ : Values).
  induction (propertyLines text) as [|line lines IH]; intros values res Hlines Hclear.
  - simpl. by rewrite append_nil_r.
  - apply Forall_cons in Hlines as [Hline Hlines].
    pose proof (Split_length line "=") as Hlen. rewrite Hline in Hlen.
    simpl in *. destruct (strings.Split line "=") as [|n [|v [|]]]; try done.
    destruct (clearFor_step _ _ _ Hclear) as (values' & Ea & Hclear').
    simpl in Ea. rewrite Ea. rewrite (IH _ _ Hlines Hclear').
    cbn [fold_left]. by rewrite (tryAdd_Add _ _ _ _ _ _ Ea), !append_assoc.
Qed.

End StructuralMore.

Lemma parseConfig_without_collision_witness :
  parseConfig strcase.ToLowerCamel samplePayload ∅ ["cfg"; "config.yaml"]
  = (templated strcase.ToLowerCamel samplePayload ["cfg"; "config.yaml"],
     fold_left (tryAdd strcase.ToLowerCamel)
       (adds samplePayload ["cfg"; "config.yaml"]) ∅,
     warnings samplePayload).
Proof.
  apply parseConfig_without_collision.
  intros op1 op2 H1 H2 Hpre. simpl in H1, H2.
  repeat (destruct H1 as [<-|H1]; [|]); try done;
    repeat (destruct H2 as [<-|H2]; [|]); try done;
    try reflexivity;
    exfalso; destruct Hpre as [k Hk]; vm_compute in Hk; discriminate.
Defined.

Lemma parseProperties_without_collision_witness :
  parseProperties strcase.ToLowerCamel ("timeout=30" ++ NL ++ "retries=5" ++ NL) ["cfg"] ∅
  = (Ok (propertyText strcase.ToLowerCamel
           (propertyLines ("timeout=30" ++ NL ++ "retries=5" ++ NL)) ["cfg"]),
     fold_left (tryAdd strcase.ToLowerCamel)
       (propertyOps (propertyLines ("timeout=30" ++ NL ++ "retries=5" ++ NL)) ["cfg"]) ∅).
Proof.
  apply parseProperties_without_collision.
  - repeat constructor.
  - intros op1 op2 H1 H2 Hpre. vm_compute in H1, H2.
    repeat (destruct H1 as [<-|H1]; [|]); try done;
      repeat (destruct H2 as [<-|H2]; [|]); try done;
      try reflexivity;
      exfalso; destruct Hpre as [k Hk]; vm_compute in Hk; discriminate.
Defined.

(** ** The YAML route of parseMapData *)

Section YamlRoute.

Variable ToLowerCamel : string -> string.
Variable yaml_Unmarshal : string -> result (list (string * value)).
Variable yaml_Marshal : list (string * value) -> result string.

(** X12: an entry whose key ends in [.yaml] or [.yml].  When its text
    cannot be decoded the entry keeps its text and the values are
    untouched.  When it is decoded the values are the insertions of the
    payload made in turn whether or not the rewritten payload can be
    encoded again; if it cannot, the entry keeps its text all the same,
    so the values hold leaves no placeholder refers to. *)
Theorem parseMapData_yaml_entry key value configName values :
  strings.HasSuffix key ".yaml" || strings.HasSuffix key ".yml" = true ->
  match yaml_Unmarshal value with
  | Err e =>
      parseMapData_entry ToLowerCamel yaml_Unmarshal yaml_Marshal
        key value configName values
      = (value, values,
         [unableToProcess
            (errors_Wrap e ("unable to unmarshal configmap " ++ fmt_v [configName; key]))
            [configName; key]])
  | Ok config =>
      snd (fst (parseMapData_entry ToLowerCamel yaml_Unmarshal yaml_Marshal
                  key value configName values))
      = fold_left (tryAdd ToLowerCamel) (adds config [configName; key]) values
      /\ (isOk (yaml_Marshal
                 (fst (fst (parseConfig ToLowerCamel config values [configName; key]))))
          = false ->
          fst (fst (parseMapData_entry ToLowerCamel yaml_Unmarshal yaml_Marshal
                      key value configName values))
          = value)
  end.
Proof.
  intros Hkey. unfold parseMapData_entry, parseYaml. rewrite Hkey.
  destruct (yaml_Unmarshal value) as [config|e]; [|done].
  pose proof (parseConfig_values ToLowerCamel config values [configName; key]) as Hv.
  destruct (parseConfig _ config values _) as [[config' values'] logs].
  cbn [fst snd] in *.
  destruct (yaml_Marshal config') as [confBytes|e]; cbn [fst snd isOk]; by split.
Qed.

End YamlRoute.

(** ** StatefulSet: what processPodSpec stores and returns *)

Lemma imageOk_dec c : {imageOk c} + {~ imageOk c}.
Proof. unfold imageOk. destruct (Z_le_dec 0 (strings.LastIndex (c_Image c) ":")); auto. Qed.

Section PodMore.

Variable ToLowerCamel : string -> string.
Variable DomainEnv DomainKey : string.

#[local] Abbreviation containers' :=
  (processContainers ToLowerCamel DomainEnv DomainKey).
#[local] Abbreviation container' :=
  (processPodContainer ToLowerCamel DomainEnv DomainKey).
#[local] Abbreviation origin := (podOrigin ToLowerCamel).

Lemma processContainers_error name appMeta cs values e :
  podShaped name values ->
  containers' name appMeta cs values = Err e ->
  exists pre c post,
    cs = (pre ++ c :: post)%list /\ Forall imageOk pre /\ ~ imageOk c
    /\ e = "wrong image format: " ++ c_Image c.
Proof.
  revert values. induction cs as [|c cs IH]; intros values Hshape Hrun; [discriminate|].
  simpl in Hrun. destruct (imageOk_dec c) as [Hc|Hc].
  - destruct (processPodContainer_ok ToLowerCamel DomainEnv DomainKey name appMeta
                c values Hshape Hc) as (c' & values1 & Ec & Hshape1 & _).
    rewrite Ec in Hrun.
    destruct (containers' name appMeta cs values1) as [[cs' values2]|e'] eqn:Ecs;
      [discriminate|].
    injection Hrun as ->.
    destruct (IH _ Hshape1 Ecs) as (pre & c0 & post & -> & Hpre & Hc0 & ->).
    exists (c :: pre), c0, post. repeat split; try done. by constructor.
  - rewrite (processPodContainer_wrong_image _ _ _ _ _ _ _ Hc) in Hrun.
    injection Hrun as <-. exists [], c, cs. repeat split; try done.
Qed.

(** X13: [processPodSpec] fails for one reason only.  It succeeds when
    every container image holds a [:], and an error it returns is
    [wrong image format: <image>] for the first container whose image
    holds none; setting the values never fails. *)
Theorem processPodSpec_fails_only_on_image name appMeta pod :
  (Forall imageOk (Containers pod) ->
   isOk (processPodSpec ToLowerCamel DomainEnv DomainKey name appMeta pod) = true)
  /\ (forall e,
        processPodSpec ToLowerCamel DomainEnv DomainKey name appMeta pod = Err e ->
        exists pre c post,
          Containers pod = (pre ++ c :: post)%list
          /\ Forall imageOk pre /\ ~ imageOk c
          /\ e = "wrong image format: " ++ c_Image c).
Proof.
  unfold processPodSpec. split.
  - intros Hall.
    destruct (processContainers_ok ToLowerCamel DomainEnv DomainKey name appMeta
                _ ∅ (podShaped_empty name) Hall) as (cs' & values & -> & _).
    done.
  - intros e Hrun.
    destruct (containers' name appMeta (Containers pod) ∅) as [[cs' values]|e'] eqn:E;
      [discriminate|].
    injection Hrun as ->.
    exact (processContainers_error _ _ _ _ _ (podShaped_empty name) E).
Qed.

Lemma processPodContainer_fields name appMeta c values c' values' :
  container' name appMeta c values = (Ok c', values') ->
  c_Name c' = c_Name c
  /\ c_Env c' = (map (templateEnvVar appMeta) (c_Env c)
                 ++ [domainEnvVar DomainEnv DomainKey])%list
  /\ c_EnvFrom c' = map (templateEnvFrom appMeta) (c_EnvFrom c)
  /\ c_Requests c' = c_Requests c /\ c_Limits c' = c_Limits c.
Proof.
  unfold processPodContainer.
  destruct (strings.LastIndex (c_Image c) ":" <? 0); [discriminate|].
  destruct (SetNestedField values _ _) as [values1|]; [|discriminate].
  destruct (SetNestedField values1 _ _) as [values2|]; [|discriminate].
  destruct (setResources values2 _ _ "requests" _) as [values3|]; [|discriminate].
  destruct (setResources values3 _ _ "limits" _) as [values4|]; [|discriminate].
  by intros [= <- _].
Qed.

Lemma map_templateEnvVar_names appMeta env :
  map env_Name (map (templateEnvVar appMeta) env) = map env_Name env
  /\ map env_Value (map (templateEnvVar appMeta) env) = map env_Value env.
Proof. rewrite !map_map. split; by apply map_ext. Qed.

Lemma processContainers_fields name appMeta cs values cs' values' :
  containers' name appMeta cs values = Ok (cs', values') ->
  Forall2 (fun c c' =>
             c_Name c' = c_Name c
             /\ map env_Name (c_Env c') = (map env_Name (c_Env c) ++ [DomainEnv])%list
             /\ map env_Value (c_Env c')
                = (map env_Value (c_Env c) ++ [("{{ .Values." ++ DomainKey ++ " }}")%string])%list
             /\ c_Requests c' = c_Requests c /\ c_Limits c' = c_Limits c)
    cs cs'.
Proof.
  revert values cs' values'.
  induction cs as [|c cs IH]; intros values cs' values' Hrun; simpl in Hrun.
  - injection Hrun as <- _. constructor.
  - destruct (container' name appMeta c values) as [[c1|] values1] eqn:Ec; [|discriminate].
    destruct (containers' name appMeta cs values1) as [[cs1 values2]|] eqn:Ecs;
      [|discriminate].
    injection Hrun as <- _.
    destruct (processPodContainer_fields _ _ _ _ _ _ Ec) as (Hn & He & _ & Hr & Hl).
    destruct (map_templateEnvVar_names appMeta (c_Env c)) as [Hnames Hvalues].
    constructor; [|by eapply IH].
    rewrite He, !map_app, Hnames, Hvalues. done.
Qed.

(** X14: a pod that is processed keeps its containers, in their order
    and under their names; each of them keeps the names and literal
    values of its environment and its requests and limits, and gets one
    more environment entry at the end, the cluster domain one. *)
Theorem processPodSpec_containers name appMeta pod values pod' :
  processPodSpec ToLowerCamel DomainEnv DomainKey name appMeta pod = Ok (values, pod') ->
  Forall2 (fun c c' =>
             c_Name c' = c_Name c
             /\ map env_Name (c_Env c') = (map env_Name (c_Env c) ++ [DomainEnv])%list
             /\ map env_Value (c_Env c')
                = (map env_Value (c_Env c) ++ [("{{ .Values." ++ DomainKey ++ " }}")%string])%list
             /\ c_Requests c' = c_Requests c /\ c_Limits c' = c_Limits c)
    (Containers pod) (Containers pod').
Proof.
  unfold processPodSpec.
  destruct (containers' name appMeta (Containers pod) ∅) as [[cs' values']|] eqn:E;
    [|discriminate].
  intros [= _ <-]. cbn [Containers]. by eapply processContainers_fields.
Qed.

(** *** Where the leaves come from *)

Lemma podOrigin_mono name cs cs' p s :
  (forall c, In c cs -> In c cs') -> origin name cs p s -> origin name cs' p s.
Proof. intros Hsub (c & Hin & H). exists c. auto. Qed.

Lemma setResources_origin name cn kind l values values' (P : list string -> scalar -> Prop) :
  setResources values name cn kind l = Ok values' ->
  (forall p s, lookup_path p values = Some (Leaf s) -> P p s) ->
  (forall k q, In (k, q) l -> P [name; cn; "resources"; kind; k] (SString q)) ->
  forall p s, lookup_path p values' = Some (Leaf s) -> P p s.
Proof.
  revert values. induction l as [|[k v] l IH]; intros values Hset Hold Hnew; simpl in Hset.
  - by injection Hset as <-.
  - destruct (SetNestedField values _ _) as [values1|] eqn:E; [|discriminate].
    apply (IH values1 Hset).
    + intros p s Hp.
      destruct (SetNestedField_leaves _ _ _ _ _ _ _ E Hp) as [[-> ->]|Hp']; [|eauto].
      apply Hnew. by left.
    + intros k' q' Hin. apply Hnew. by right.
Qed.

Lemma processPodContainer_origin name appMeta c values c' values' done :
  container' name appMeta c values = (Ok c', values') ->
  (forall p s, lookup_path p values = Some (Leaf s) -> origin name done p s) ->
  forall p s, lookup_path p values' = Some (Leaf s) -> origin name (done ++ [c]) p s.
Proof.
  unfold processPodContainer. intros Hrun Hold.
  destruct (strings.LastIndex (c_Image c) ":" <? 0); [discriminate|].
  destruct (SetNestedField values _ _) as [values1|] eqn:E1; [|discriminate].
  destruct (SetNestedField values1 _ _) as [values2|] eqn:E2; [|discriminate].
  destruct (setResources values2 _ _ "requests" _) as [values3|] eqn:E3; [|discriminate].
  destruct (setResources values3 _ _ "limits" _) as [values4|] eqn:E4; [|discriminate].
  injection Hrun as _ <-.
  assert (In c (done ++ [c])) as Hc by (apply in_or_app; right; by left).
  apply (setResources_origin _ _ _ _ _ _ _ E4).
  - apply (setResources_origin _ _ _ _ _ _ _ E3).
    + intros p s Hp.
      destruct (SetNestedField_leaves _ _ _ _ _ _ _ E2 Hp) as [[-> ->]|Hp1].
      { exists c. split; [done|]. right. left. done. }
      destruct (SetNestedField_leaves _ _ _ _ _ _ _ E1 Hp1) as [[-> ->]|Hp0].
      { exists c. split; [done|]. left. done. }
      eapply podOrigin_mono; [|by apply Hold].
      intros c0 H0. apply in_or_app. by left.
    + intros k q Hin. exists c. split; [done|]. right. right. left. eauto.
  - intros k q Hin. exists c. split; [done|]. right. right. right. eauto.
Qed.

Lemma processContainers_origin name appMeta cs values cs' values' done :
  containers' name appMeta cs values = Ok (cs', values') ->
  (forall p s, lookup_path p values = Some (Leaf s) -> origin name done p s) ->
  forall p s, lookup_path p values' = Some (Leaf s) -> origin name (done ++ cs) p s.
Proof.
  revert values cs' done. induction cs as [|c cs IH]; intros values cs' done Hrun Hold;
    simpl in Hrun.
  - injection Hrun as _ <-. by rewrite app_nil_r.
  - destruct (container' name appMeta c values) as [[c1|] values1] eqn:Ec; [|discriminate].
    destruct (containers' name appMeta cs values1) as [[cs1 values2]|] eqn:Ecs;
      [|discriminate].
    injection Hrun as _ <-.
    intros p s Hp.
    replace (done ++ c :: cs)%list with ((done ++ [c]) ++ cs)%list
      by (by rewrite <- app_assoc).
    eapply IH; [exact Ecs| |exact Hp].
    eapply processPodContainer_origin; eauto.
Qed.

(** X15: the values of a pod hold nothing but what its containers
    gave: every leaf is the repository or the tag of the image of one
    of the containers, or one of its requests or limits, stored as a
    string under [<name>.<normalised container name>]. *)
Theorem processPodSpec_values_origin name appMeta pod values pod' :
  processPodSpec ToLowerCamel DomainEnv DomainKey name appMeta pod = Ok (values, pod') ->
  forall p s, lookup_path p values = Some (Leaf s) ->
              podOrigin ToLowerCamel name (Containers pod) p s.
Proof.
  unfold processPodSpec.
  destruct (containers' name appMeta (Containers pod) ∅) as [[cs' values']|] eqn:E;
    [|discriminate].
  intros [= <- _] p s Hp.
  apply (processContainers_origin _ _ _ _ _ _ [] E); [|done].
  intros p0 s0 H0. destruct p0; [done|]. by rewrite lookup_path_empty in H0.
Qed.

End PodMore.

Lemma parseMapData_yaml_entry_witness :
  snd (fst (parseMapData_entry strcase.ToLowerCamel sampleYaml noYamlOut
              "config.yaml" "port: 8080" "cfg" ∅))
  = fold_left (tryAdd strcase.ToLowerCamel) (adds samplePayload ["cfg"; "config.yaml"]) ∅
  /\ fst (fst (parseMapData_entry strcase.ToLowerCamel sampleYaml noYamlOut
                 "config.yaml" "port: 8080" "cfg" ∅))
     = "port: 8080".
Proof.
  destruct (parseMapData_yaml_entry strcase.ToLowerCamel sampleYaml noYamlOut
              "config.yaml" "port: 8080" "cfg" ∅ eq_refl) as [Hvalues Htext].
  split; [exact Hvalues|]. apply Htext. reflexivity.
Defined.

Lemma processPodSpec_fails_only_on_image_witness :
  isOk (processPodSpec strcase.ToLowerCamel "KUBERNETES_CLUSTER_DOMAIN"
          "kubernetesClusterDomain" "web" sampleMeta (samplePod [resourcefulContainer]))
  = true
  /\ exists pre c post,
       Containers (samplePod [resourcefulContainer; sampleContainer "redis" "redis"])
       = (pre ++ c :: post)%list
       /\ Forall imageOk pre /\ ~ imageOk c
       /\ "wrong image format: redis" = "wrong image format: " ++ c_Image c.
Proof.
  split.
  - apply (processPodSpec_fails_only_on_image strcase.ToLowerCamel
             "KUBERNETES_CLUSTER_DOMAIN" "kubernetesClusterDomain" "web" sampleMeta
             (samplePod [resourcefulContainer])).
    repeat constructor. by vm_compute.
  - apply (processPodSpec_fails_only_on_image strcase.ToLowerCamel
             "KUBERNETES_CLUSTER_DOMAIN" "kubernetesClusterDomain" "web" sampleMeta
             (samplePod [resourcefulContainer; sampleContainer "redis" "redis"])).
    vm_compute. reflexivity.
Defined.

Lemma processPodSpec_containers_witness :
  exists values pod',
    processPodSpec strcase.ToLowerCamel "KUBERNETES_CLUSTER_DOMAIN"
      "kubernetesClusterDomain" "web" sampleMeta (samplePod [resourcefulContainer])
    = Ok (values, pod')
    /\ Forall2 (fun c c' =>
                  c_Name c' = c_Name c
                  /\ map env_Name (c_Env c')
                     = (map env_Name (c_Env c) ++ ["KUBERNETES_CLUSTER_DOMAIN"])%list
                  /\ map env_Value (c_Env c')
                     = (map env_Value (c_Env c)
                        ++ [("{{ .Values." ++ "kubernetesClusterDomain" ++ " }}")%string])%list
                  /\ c_Requests c' = c_Requests c /\ c_Limits c' = c_Limits c)
         [resourcefulContainer] (Containers pod').
Proof.
  eexists _, _. split; [vm_compute; reflexivity|].
  eapply (processPodSpec_containers strcase.ToLowerCamel "KUBERNETES_CLUSTER_DOMAIN"
            "kubernetesClusterDomain" "web" sampleMeta (samplePod [resourcefulContainer])).
  vm_compute. reflexivity.
Defined.

Lemma processPodSpec_values_origin_witness :
  podOrigin strcase.ToLowerCamel "web" [resourcefulContainer]
    ["web"; "redis"; "resources"; "requests"; "cpu"] (SString "100m").
Proof.
  eapply (processPodSpec_values_origin strcase.ToLowerCamel "KUBERNETES_CLUSTER_DOMAIN"
            "kubernetesClusterDomain" "web" sampleMeta (samplePod [resourcefulContainer])).
  - vm_compute. reflexivity.
  - vm_compute. reflexivity.
Defined.

(** ** StatefulSet: resources in the values and in the pod spec *)

(** Neither path starting with the other, a set of one leaves the other
    as it was. *)
Lemma SetNestedField_frame seen obj v q obj' p :
  SetNestedField_at seen obj v q = Ok obj' ->
  incomparable q p ->
  lookup_path p obj' = lookup_path p obj.
Proof.
  revert seen obj obj' p.
  induction q as [|f [|g rest] IH]; intros seen obj obj' p Hset [Hqp Hpq].
  - discriminate.
  - injection Hset as <-.
    destruct p as [|f' p]; [exfalso; apply Hpq, prefix_nil|].
    assert (f <> f') as Hne.
    { intros ->. apply Hqp, prefix_cons, prefix_nil. }
    destruct p as [|g' p]; [rewrite !lookup_path_one|rewrite !lookup_path_cons];
      by rewrite lookup_insert_ne.
  - destruct p as [|f' p]; [exfalso; apply Hpq, prefix_nil|].
    rewrite SetNestedField_at_cons in Hset.
    assert (exists sub sub',
      SetNestedField_at (seen ++ [f]) sub v (g :: rest) = Ok sub' /\
      obj' = <[f := Node sub']> obj /\
      (obj !! f = Some (Node sub) \/ (obj !! f = None /\ sub = ∅)))
      as (sub & sub' & E & -> & Hsub).
    { destruct (obj !! f) as [[s0|sub]|]; try discriminate.
      - destruct (SetNestedField_at _ sub _ (g :: rest)) eqn:E; try discriminate.
        injection Hset as <-. eauto 10.
      - destruct (SetNestedField_at _ ∅ _ (g :: rest)) eqn:E; try discriminate.
        injection Hset as <-. eauto 10. }
    destruct (decide (f = f')) as [<-|Hne].
    + destruct p as [|g' p]; [exfalso; apply Hpq, prefix_cons, prefix_nil|].
      rewrite !lookup_path_cons, lookup_insert_eq.
      assert (incomparable (g :: rest) (g' :: p)) as Hinc.
      { split; intros H; [apply Hqp|apply Hpq]; by apply prefix_cons. }
      rewrite (IH _ _ _ _ E Hinc).
      destruct Hsub as [->|[-> ->]]; [done|].
      by rewrite lookup_path_empty.
    + destruct p as [|g' p]; [rewrite !lookup_path_one|rewrite !lookup_path_cons];
        by rewrite lookup_insert_ne.
Qed.

Lemma lookup_path_app p q (values : Values) t :
  lookup_path (p ++ q) values = Some t -> q <> [] ->
  exists m, lookup_path p values = Some (Node m) /\ lookup_path q m = Some t.
Proof.
  revert values. induction p as [|f p IH]; intros values H Hq.
  - simpl in *. eauto.
  - destruct q as [|g q]; [done|].
    destruct p as [|f2 p].
    + simpl app in *. rewrite lookup_path_cons in H. rewrite lookup_path_one.
      destruct (values !! f) as [[s|m]|]; try discriminate. eauto.
    + change ((f :: f2 :: p) ++ g :: q)%list with (f :: f2 :: (p ++ g :: q))%list in H.
      rewrite lookup_path_cons in *.
      destruct (values !! f) as [[s|m]|]; try discriminate.
      by apply IH.
Qed.

Lemma leafAt_set name values v q values' p :
  SetNestedField values (Leaf v) q = Ok values' ->
  podLeaf name p -> podLeaf name q ->
  leafAt p values -> leafAt p values'.
Proof.
  intros Hset Hp Hq [s Hs].
  destruct (decide (p = q)) as [->|Hne].
  - exists v. eapply lookup_path_SetNestedField. exact Hset.
  - exists s. eapply podShaped_keeps; eauto.
Qed.

Lemma resourcesFilled_empty name : resourcesFilled name ∅.
Proof. intros cn t H. by rewrite lookup_path_empty in H. Qed.

Lemma resourcesFilled_set name values v q values' :
  SetNestedField values (Leaf v) q = Ok values' ->
  podLeaf name q ->
  resourcesFilled name values -> resourcesFilled name values'.
Proof.
  intros Hset Hq Hfilled cn t Ht.
  destruct (decide ([name; cn; "resources"] `prefix_of` q)) as [Hpre|Hpre].
  - destruct Hq as [(c & x & ->)|(c & kind & k & ->)].
    + destruct Hpre as [r Hr]. simplify_list_eq.
    + destruct Hpre as [r Hr]. simplify_list_eq.
      exists kind, k, v. eapply lookup_path_SetNestedField. exact Hset.
  - assert (incomparable q [name; cn; "resources"]) as Hinc.
    { split; [|done]. intros Hqp. apply prefix_length in Hqp.
      destruct Hq as [(c & x & ->)|(c & kind & k & ->)]; simpl in Hqp; lia. }
    rewrite (SetNestedField_frame _ _ _ _ _ _ Hset Hinc) in Ht.
    destruct (Hfilled cn t Ht) as (kind & k & Hleaf).
    exists kind, k. eapply (leafAt_set name); eauto. right. eauto.
Qed.

Section Resources.

Variable ToLowerCamel : string -> string.
Variable DomainEnv DomainKey : string.

#[local] Abbreviation containers4 :=
  (processContainers ToLowerCamel DomainEnv DomainKey).
#[local] Abbreviation container4 :=
  (processPodContainer ToLowerCamel DomainEnv DomainKey).

Lemma podPath_podLeaf name c q : podPath ToLowerCamel name c q -> podLeaf name q.
Proof.
  intros [->|[->|[(k & v & _ & ->)|(k & v & _ & ->)]]];
    [left|left|right|right]; eauto.
Qed.

(** What every set of the loops keeps, the loops keep. *)
Lemma setResources_preserves name (Q : Values -> Prop) cn kind l values values' :
  (forall k v values values',
      In (k, v) l -> Q values ->
      SetNestedField values (Leaf (SString v)) [name; cn; "resources"; kind; k]
        = Ok values' ->
      Q values') ->
  Q values -> setResources values name cn kind l = Ok values' -> Q values'.
Proof.
  revert values. induction l as [|[k v] l IH]; intros values HQ Hv Hset;
    simpl in Hset.
  - by injection Hset as <-.
  - destruct (SetNestedField values _ _) as [values1|] eqn:E; [|discriminate].
    apply (IH values1); [| |done].
    + intros k' v' ? ? Hin. apply HQ. by right.
    + eapply HQ; [by left|exact Hv|exact E].
Qed.

Lemma processPodContainer_preserves name (Q : Values -> Prop) appMeta c values c' values' :
  (forall values v q values',
      Q values -> podPath ToLowerCamel name c q ->
      SetNestedField values (Leaf v) q = Ok values' ->
      Q values') ->
  Q values -> container4 name appMeta c values = (Ok c', values') -> Q values'.
Proof.
  intros HQ Hv. unfold processPodContainer.
  destruct (strings.LastIndex (c_Image c) ":" <? 0); [discriminate|].
  destruct (SetNestedField values _ _) as [values1|] eqn:E1; [|discriminate].
  destruct (SetNestedField values1 _ _) as [values2|] eqn:E2; [|discriminate].
  destruct (setResources values2 _ _ "requests" _) as [values3|] eqn:E3; [|discriminate].
  destruct (setResources values3 _ _ "limits" _) as [values4|] eqn:E4; [|discriminate].
  intros [= _ <-].
  eapply setResources_preserves; [| |exact E4].
  { intros k v ? ? Hin H0 Hs. eapply HQ; [exact H0| |exact Hs].
    right. right. right. eauto. }
  eapply setResources_preserves; [| |exact E3].
  { intros k v ? ? Hin H0 Hs. eapply HQ; [exact H0| |exact Hs].
    right. right. left. eauto. }
  eapply HQ; [|right; by left|exact E2].
  eapply HQ; [exact Hv|by left|exact E1].
Qed.

Lemma processContainers_preserves name (Q : Values -> Prop) appMeta cs values cs' values' :
  (forall c values v q values',
      In c cs -> Q values -> podPath ToLowerCamel name c q ->
      SetNestedField values (Leaf v) q = Ok values' ->
      Q values') ->
  Q values -> containers4 name appMeta cs values = Ok (cs', values') -> Q values'.
Proof.
  revert values cs'. induction cs as [|c cs IH]; intros values cs' HQ Hv Hrun;
    simpl in Hrun.
  - by injection Hrun as _ <-.
  - destruct (container4 name appMeta c values) as [[c1|] values1] eqn:Ec; [|discriminate].
    destruct (containers4 name appMeta cs values1) as [[cs1 values2]|] eqn:Ecs;
      [|discriminate].
    injection Hrun as _ <-.
    eapply IH; [| |exact Ecs].
    + intros c0 ? ? ? ? Hin. apply HQ. by right.
    + eapply processPodContainer_preserves; [|exact Hv|exact Ec].
      intros ? ? ? ?. apply HQ. by left.
Qed.

Lemma processContainers_split name appMeta l1 l2 values cs' values' :
  containers4 name appMeta (l1 ++ l2) values = Ok (cs', values') ->
  exists cs1 values1 cs2,
    containers4 name appMeta l1 values = Ok (cs1, values1)
    /\ containers4 name appMeta l2 values1 = Ok (cs2, values').
Proof.
  revert values cs'. induction l1 as [|c l1 IH]; intros values cs' Hrun.
  - simpl in *. eauto.
  - simpl in Hrun |- *.
    destruct (container4 name appMeta c values) as [[c1|] values1]; [|discriminate].
    destruct (containers4 name appMeta (l1 ++ l2) values1) as [[cs1 values2]|] eqn:E;
      [|discriminate].
    injection Hrun as _ <-.
    destruct (IH _ _ E) as (cs1' & values1' & cs2 & -> & H2). eauto.
Qed.

(** Once a container went through, its image and every resource it
    asks for have a leaf. *)
Lemma setResources_leafAt name cn kind l values values' k q :
  setResources values name cn kind l = Ok values' ->
  In (k, q) l ->
  leafAt [name; cn; "resources"; kind; k] values'.
Proof.
  revert values. induction l as [|[k0 v0] l IH]; intros values Hset Hin; [done|].
  simpl in Hset.
  destruct (SetNestedField values _ _) as [values1|] eqn:E; [|discriminate].
  destruct Hin as [[= -> ->]|Hin]; [|by eapply IH].
  eapply (setResources_preserves name (leafAt [name; cn; "resources"; kind; k]));
    [|eexists; eapply lookup_path_SetNestedField; exact E|exact Hset].
  intros k' v' values0 values0' _ Hleaf Hset0.
  eapply (leafAt_set name); eauto; right; eauto.
Qed.

Lemma processPodContainer_leafAt name appMeta c values c' values' :
  container4 name appMeta c values = (Ok c', values') ->
  leafAt [name; ToLowerCamel (c_Name c); "image"; "repository"] values'
  /\ (forall k q, In (k, q) (c_Requests c) ->
        leafAt [name; ToLowerCamel (c_Name c); "resources"; "requests"; k] values')
  /\ (forall k q, In (k, q) (c_Limits c) ->
        leafAt [name; ToLowerCamel (c_Name c); "resources"; "limits"; k] values').
Proof.
  unfold processPodContainer.
  destruct (strings.LastIndex (c_Image c) ":" <? 0); [discriminate|].
  destruct (SetNestedField values _ _) as [values1|] eqn:E1; [|discriminate].
  destruct (SetNestedField values1 _ _) as [values2|] eqn:E2; [|discriminate].
  destruct (setResources values2 _ _ "requests" _) as [values3|] eqn:E3; [|discriminate].
  destruct (setResources values3 _ _ "limits" _) as [values4|] eqn:E4; [|discriminate].
  intros [= _ <-].
  assert (forall p, podLeaf name p -> leafAt p values3 -> leafAt p values4) as H34.
  { intros p Hp Hl.
    eapply (setResources_preserves name (leafAt p)); [|exact Hl|exact E4].
    intros. eapply (leafAt_set name); eauto. right. eauto. }
  assert (forall p, podLeaf name p -> leafAt p values2 -> leafAt p values3) as H23.
  { intros p Hp Hl.
    eapply (setResources_preserves name (leafAt p)); [|exact Hl|exact E3].
    intros. eapply (leafAt_set name); eauto. right. eauto. }
  split; [|split].
  - apply H34; [left; eauto|]. apply H23; [left; eauto|].
    eapply (leafAt_set name); [exact E2|left; eauto|left; eauto|].
    eexists. eapply lookup_path_SetNestedField. exact E1.
  - intros k q Hin. apply H34; [right; eauto|]. by eapply setResources_leafAt.
  - intros k q Hin. by eapply setResources_leafAt.
Qed.

Lemma processContainers_leafAt name appMeta cs values cs' values' c :
  containers4 name appMeta cs values = Ok (cs', values') ->
  In c cs ->
  leafAt [name; ToLowerCamel (c_Name c); "image"; "repository"] values'
  /\ (forall k q, In (k, q) (c_Requests c) ->
        leafAt [name; ToLowerCamel (c_Name c); "resources"; "requests"; k] values')
  /\ (forall k q, In (k, q) (c_Limits c) ->
        leafAt [name; ToLowerCamel (c_Name c); "resources"; "limits"; k] values').
Proof.
  intros Hrun Hin. apply in_split in Hin as (pre & post & ->).
  destruct (processContainers_split _ _ _ _ _ _ _ Hrun) as (cs1 & values1 & cs2 & _ & H2).
  simpl in H2.
  destruct (container4 name appMeta c values1) as [[c1|] values2] eqn:Ec; [|discriminate].
  destruct (containers4 name appMeta post values2) as [[cs3 values3]|] eqn:Epost;
    [|discriminate].
  injection H2 as _ <-.
  destruct (processPodContainer_leafAt _ _ _ _ _ _ Ec) as (Himg & Hreq & Hlim).
  assert (forall p, podLeaf name p -> leafAt p values2 -> leafAt p values3) as Hkeep.
  { intros p Hp Hl.
    eapply (processContainers_preserves name (leafAt p)); [|exact Hl|exact Epost].
    intros. eapply (leafAt_set name); eauto. by eapply podPath_podLeaf. }
  split; [|split].
  - apply Hkeep; [left; eauto|done].
  - intros k q Hkq. apply Hkeep; [right; eauto|]. eauto.
  - intros k q Hkq. apply Hkeep; [right; eauto|]. eauto.
Qed.

End Resources.

Section ResourcesText.

Variable ToLowerCamel : string -> string.
Variable DomainEnv DomainKey : string.
Variable accessorError : list string -> tree -> error.

#[local] Abbreviation podSpec4 := (processPodSpec ToLowerCamel DomainEnv DomainKey).
#[local] Abbreviation containers5 :=
  (processContainers ToLowerCamel DomainEnv DomainKey).
#[local] Abbreviation container5 :=
  (processPodContainer ToLowerCamel DomainEnv DomainKey).

Lemma podShaped_step name values v q values' :
  SetNestedField values (Leaf v) q = Ok values' ->
  podLeaf name q -> podShaped name values -> podShaped name values'.
Proof.
  intros Hset Hq Hshape p s Hp.
  destruct (SetNestedField_leaves _ _ _ _ _ _ _ Hset Hp) as [[-> _]|Hold]; eauto.
Qed.

(** A quantity of a map without a repeated key is read back after the
    loop. *)
Lemma setResources_stores name cn kind l values values' k q :
  podShaped name values ->
  NoDup (map fst l) ->
  setResources values name cn kind l = Ok values' ->
  In (k, q) l ->
  lookup_path [name; cn; "resources"; kind; k] values' = Some (Leaf (SString q)).
Proof.
  revert values. induction l as [|[k0 v0] l IH]; intros values Hshape Hdup Hset Hin;
    [done|].
  simpl in Hset. apply NoDup_cons in Hdup as [Hk0 Hdup].
  destruct (SetNestedField values _ _) as [values1|] eqn:E; [|discriminate].
  destruct Hin as [[= -> ->]|Hin].
  - eapply (setResources_preserves name
              (fun values => lookup_path [name; cn; "resources"; kind; k] values
                             = Some (Leaf (SString q))));
      [|eapply lookup_path_SetNestedField; exact E|exact Hset].
    intros k' v' values0 values0' Hin' Hleaf Hset0.
    eapply (podShaped_keeps name); [exact Hset0|exact Hleaf|right; eauto|right; eauto|].
    intros [= <-]. apply Hk0. apply (in_map fst) in Hin'. by apply list_elem_of_In.
  - eapply IH; [|done|exact Hset|done].
    eapply podShaped_step; [exact E|right; eauto|done].
Qed.

Lemma setResources_podShaped name cn kind l values values' :
  podShaped name values ->
  setResources values name cn kind l = Ok values' ->
  podShaped name values'.
Proof.
  intros Hshape. apply (setResources_preserves name (podShaped name)); [|done].
  intros k v ? ? _ H0 Hs. eapply podShaped_step; [exact Hs|right; eauto|done].
Qed.

Lemma processContainers_podShaped name appMeta cs values cs' values' :
  podShaped name values ->
  containers5 name appMeta cs values = Ok (cs', values') ->
  podShaped name values'.
Proof.
  intros Hshape.
  apply (processContainers_preserves ToLowerCamel DomainEnv DomainKey name (podShaped name));
    [|done].
  intros c ? v q ? _ H0 Hq Hs.
  eapply podShaped_step; [exact Hs|by eapply podPath_podLeaf|done].
Qed.

Lemma processContainers_resourcesFilled name appMeta cs values cs' values' :
  resourcesFilled name values ->
  containers5 name appMeta cs values = Ok (cs', values') ->
  resourcesFilled name values'.
Proof.
  intros Hfilled.
  apply (processContainers_preserves ToLowerCamel DomainEnv DomainKey name
           (resourcesFilled name)); [|done].
  intros c ? v q ? _ H0 Hq Hs.
  eapply resourcesFilled_set; [exact Hs|by eapply podPath_podLeaf|done].
Qed.

(** X16: the requests and limits of a container are read back from the
    values of the pod, each as its text under
    [<name>.<container>.resources.<requests|limits>.<resource>], unless
    a later container has the same normalised name. *)
Theorem processPodSpec_resources_stored name appMeta pod values pod' pre c post :
  podSpec4 name appMeta pod = Ok (values, pod') ->
  Containers pod = (pre ++ c :: post)%list ->
  Forall (fun c' => ToLowerCamel (c_Name c') <> ToLowerCamel (c_Name c)) post ->
  NoDup (map fst (c_Requests c)) ->
  NoDup (map fst (c_Limits c)) ->
  (forall k q, In (k, q) (c_Requests c) ->
     render values [name; ToLowerCamel (c_Name c); "resources"; "requests"; k]
     = Some (SString q))
  /\ (forall k q, In (k, q) (c_Limits c) ->
        render values [name; ToLowerCamel (c_Name c); "resources"; "limits"; k]
        = Some (SString q)).
Proof.
  unfold processPodSpec. intros Hrun Hcs Hpost Hreq Hlim.
  destruct (containers5 name appMeta (Containers pod) ∅) as [[cs' values0]|] eqn:E;
    [|discriminate].
  injection Hrun as <- _. rewrite Hcs in E.
  destruct (processContainers_split _ _ _ _ _ _ _ _ _ _ E)
    as (cs1 & values1 & cs2 & Hpre & H2).
  pose proof (processContainers_podShaped _ _ _ _ _ _ (podShaped_empty name) Hpre)
    as Hshape1.
  simpl in H2.
  destruct (container5 name appMeta c values1) as [[c1|] values2] eqn:Ec; [|discriminate].
  destruct (containers5 name appMeta post values2) as [[cs3 values3]|] eqn:Epost;
    [|discriminate].
  injection H2 as _ <-.
  assert (forall p s, (exists kind k, p = [name; ToLowerCamel (c_Name c); "resources"; kind; k]) ->
            lookup_path p values2 = Some (Leaf s) -> render values3 p = Some s) as Hkeep.
  { intros p s (kind & k & ->) Hl. unfold render.
    erewrite (processContainers_preserves ToLowerCamel DomainEnv DomainKey name
                (fun values => lookup_path _ values = Some (Leaf s)));
      [done| |exact Hl|exact Epost].
    intros c0 ? v q ? Hin H0 Hq Hs.
    eapply (podShaped_keeps name); [exact Hs|exact H0|right; eauto
                                   |by eapply podPath_podLeaf|].
    rewrite List.Forall_forall in Hpost. specialize (Hpost c0 Hin).
    intros Heq. subst q.
    destruct Hq as [Hq|[Hq|[(k' & v' & _ & Hq)|(k' & v' & _ & Hq)]]];
      injection Hq as Hq; congruence. }
  unfold processPodContainer in Ec.
  destruct (strings.LastIndex (c_Image c) ":" <? 0); [discriminate|].
  destruct (SetNestedField values1 _ _) as [v1|] eqn:E1; [|discriminate].
  destruct (SetNestedField v1 _ _) as [v2|] eqn:E2; [|discriminate].
  destruct (setResources v2 _ _ "requests" _) as [v3|] eqn:E3; [|discriminate].
  destruct (setResources v3 _ _ "limits" _) as [v4|] eqn:E4; [|discriminate].
  injection Ec as _ <-.
  assert (podShaped name v2) as Hshape2.
  { eapply podShaped_step; [exact E2|left; eauto|].
    eapply podShaped_step; [exact E1|left; eauto|done]. }
  pose proof (setResources_podShaped _ _ _ _ _ _ Hshape2 E3) as Hshape3.
  split; intros k q Hin; apply Hkeep; eauto.
  - eapply (setResources_preserves name
              (fun values => lookup_path _ values = Some (Leaf (SString q))));
      [|eapply setResources_stores; [exact Hshape2|exact Hreq|exact E3|exact Hin]
       |exact E4].
    intros k' v' ? ? _ H0 Hs.
    eapply (podShaped_keeps name); [exact Hs|exact H0|right; eauto|right; eauto|].
    intros [= _]. 
  - eapply setResources_stores; [exact Hshape3|exact Hlim|exact E4|exact Hin].
Qed.

(** Whether the values of a pod have a resources map for a container
    name is whether a container of that name asks for anything. *)
Lemma processPodSpec_declares name appMeta pod values pod' cn :
  podSpec4 name appMeta pod = Ok (values, pod') ->
  lookup_path [name; cn; "resources"] values <> None
  <-> declaresResources ToLowerCamel cn (Containers pod) = true.
Proof.
  intros Hrun.
  unfold processPodSpec in Hrun.
  destruct (containers5 name appMeta (Containers pod) ∅) as [[cs' values0]|] eqn:E;
    [|discriminate].
  injection Hrun as <- _.
  assert (forall p s, lookup_path p values0 = Some (Leaf s) ->
            podOrigin ToLowerCamel name (Containers pod) p s) as Horigin.
  { intros p s Hp.
    apply (processContainers_origin _ _ _ _ _ _ _ _ _ [] E); [|done].
    intros p0 s0 H0. destruct p0; [done|]. by rewrite lookup_path_empty in H0. }
  unfold declaresResources. rewrite existsb_exists. split.
  - intros Hsome. destruct (lookup_path _ values0) as [t|] eqn:Et; [|done].
    destruct (processContainers_resourcesFilled _ _ _ _ _ _
                (resourcesFilled_empty name) E cn t Et) as (kind & k & s & Hs).
    destruct (Horigin _ _ Hs) as (c & Hin & Hc).
    exists c. split; [done|].
    destruct Hc as [[[=] _]|[[[=] _]|[(k' & q & Hkq & [= <- _ _] & _)
                                     |(k' & q & Hkq & [= <- _ _] & _)]]];
      rewrite String.eqb_refl; simpl.
    + by destruct (c_Requests c).
    + destruct (c_Requests c); [|done]. by destruct (c_Limits c).
  - intros (c & Hin & Hc). apply andb_true_iff in Hc as [Hname Hres].
    apply String.eqb_eq in Hname. subst cn.
    destruct (processContainers_leafAt _ _ _ _ _ _ _ _ _ _ E Hin) as (_ & Hreq & Hlim).
    assert (exists kind k, leafAt [name; ToLowerCamel (c_Name c); "resources"; kind; k] values0)
      as (kind & k & s & Hs).
    { destruct (c_Requests c) as [|[k q] ?] eqn:Er.
      - destruct (c_Limits c) as [|[k q] ?] eqn:El; [done|].
        exists "limits", k. eapply Hlim. by left.
      - exists "requests", k. eapply Hreq. by left. }
    destruct (lookup_path_app [name; ToLowerCamel (c_Name c); "resources"] [kind; k]
                values0 _ Hs) as (m & -> & _); done.
Qed.

Lemma NestedMap_lookup (values m2 : Values) a b c :
  lookup_path [a; b] values = Some (Node m2) ->
  lookup_path [a; b; c] values = m2 !! c
  /\ NestedMap accessorError values [a; b; c]
     = match m2 !! c with
       | None => Ok None
       | Some (Node m) => Ok (Some m)
       | Some (Leaf s) => Err (accessorError [a; b; c] (Leaf s))
       end.
Proof.
  rewrite !lookup_path_cons. unfold NestedMap. simpl.
  destruct (values !! a) as [[s|m1]|]; try done.
  destruct (m1 !! b) as [[s|m2']|]; try done.
  intros [= ->]. split; [by destruct (m2 !! c)|].
  by destruct (m2 !! c) as [[s|m]|].
Qed.

(** The body of the loop, for one container of the pod. *)
Lemma templateContainerResources_placeholder name appMeta pod podValues pod' values c m :
  podSpec4 name appMeta pod = Ok (podValues, pod') ->
  In c (Containers pod) ->
  assoc "name" m = Some (VScalar (SString (c_Name c))) ->
  (forall rest,
      lookup_path (name :: ToLowerCamel (c_Name c) :: rest) values
      = lookup_path (name :: ToLowerCamel (c_Name c) :: rest) podValues) ->
  templateContainerResources ToLowerCamel accessorError name values (VMap m)
  = Ok (VMap (if declaresResources ToLowerCamel (ToLowerCamel (c_Name c)) (Containers pod)
              then assoc_set "resources"
                     (VScalar (SString (resourcesTemplate name (ToLowerCamel (c_Name c)))))
                     m
              else m)).
Proof.
  intros Hrun Hin Hname Hagree.
  pose proof (processPodSpec_declares _ _ _ _ _ (ToLowerCamel (c_Name c)) Hrun) as Hiff.
  assert (podShaped name podValues /\ resourcesFilled name podValues
          /\ leafAt [name; ToLowerCamel (c_Name c); "image"; "repository"] podValues)
    as (Hshape & Hfilled & s & Himg).
  { unfold processPodSpec in Hrun.
    destruct (containers5 name appMeta (Containers pod) ∅) as [[cs' values0]|] eqn:E;
      [|discriminate].
    injection Hrun as <- _. split; [|split].
    - eapply processContainers_podShaped; [apply podShaped_empty|exact E].
    - eapply processContainers_resourcesFilled; [apply resourcesFilled_empty|exact E].
    - by destruct (processContainers_leafAt _ _ _ _ _ _ _ _ _ _ E Hin) as (? & _). }
  rewrite <- (Hagree ["image"; "repository"]) in Himg.
  destruct (lookup_path_app [name; ToLowerCamel (c_Name c)] ["image"; "repository"]
              values _ Himg) as (m2 & Hm2 & _); [done|].
  destruct (NestedMap_lookup _ _ _ _ "resources" Hm2) as (Hlook & Hmap).
  rewrite (Hagree ["resources"]) in Hlook.
  unfold templateContainerResources. rewrite Hname, Hmap.
  destruct (m2 !! "resources") as [[s0|res]|] eqn:Eres.
  - exfalso. destruct (Hshape _ _ Hlook) as [(? & ? & [=])|(? & ? & ? & [=])].
  - destruct Hiff as [-> _]; [|by rewrite Hlook].
    destruct (Hfilled _ _ Hlook) as (kind & k & s1 & Hs1).
    destruct (lookup_path_app [name; ToLowerCamel (c_Name c); "resources"] [kind; k]
                podValues _ Hs1) as (m3 & Hm3 & Hk); [done|].
    rewrite Hlook in Hm3. injection Hm3 as <-.
    destruct (Nat.eqb (size res) 0) eqn:Esize; [|done].
    apply Nat.eqb_eq, map_size_empty_iff in Esize. subst res.
    by rewrite lookup_path_empty in Hk.
  - destruct (declaresResources _ _ _); [|done].
    destruct Hiff as [_ Hd]. by specialize (Hd eq_refl).
Qed.

(** X17: the resources of the containers in the pod text.  On values
    that agree with those of the pod below the names of its containers,
    the loop over the unstructured containers never fails; it puts the
    [toYaml] placeholder in the place of the resources of exactly those
    containers for whose normalised name some container asks for at
    least one request or limit, and leaves the others as they are. *)
Theorem templateContainersResources_placeholders
    name appMeta pod podValues pod' values containers :
  podSpec4 name appMeta pod = Ok (podValues, pod') ->
  Forall2 describes (Containers pod') containers ->
  (forall c rest, In c (Containers pod) ->
      lookup_path (name :: ToLowerCamel (c_Name c) :: rest) values
      = lookup_path (name :: ToLowerCamel (c_Name c) :: rest) podValues) ->
  templateContainersResources ToLowerCamel accessorError name values containers
  = Ok (map (placeResources ToLowerCamel name
               (fun cn => declaresResources ToLowerCamel cn (Containers pod)))
          containers).
Proof.
  intros Hrun Hdesc Hagree.
  assert (forall c', In c' (Containers pod') ->
            exists c, In c (Containers pod) /\ c_Name c = c_Name c') as Hnames.
  { unfold processPodSpec in Hrun.
    destruct (containers5 name appMeta (Containers pod) ∅) as [[cs' values0]|] eqn:E;
      [|discriminate].
    injection Hrun as _ <-. cbn [Containers].
    pose proof (processContainers_fields _ _ _ _ _ _ _ _ _ E) as Hf.
    intros c' Hin'. apply list_elem_of_In, list_elem_of_lookup_1 in Hin' as [i Hi].
    destruct (Forall2_lookup_r _ _ _ _ _ Hf Hi) as (c & Hc & Hn & _).
    exists c. split; [|done]. eapply list_elem_of_In, list_elem_of_lookup_2, Hc. }
  induction Hdesc as [|c' v cs' vs (m & -> & Hm) _ IH]; [done|].
  destruct (Hnames c' ltac:(by left)) as (c & Hin & Hn).
  rewrite <- Hn in Hm. cbn [templateContainersResources map].
  rewrite (templateContainerResources_placeholder _ _ _ _ _ _ _ _ Hrun Hin Hm
             (fun rest => Hagree c rest Hin)).
  rewrite IH; [|intros c0 H0; apply Hnames; by right].
  unfold placeResources at 2. rewrite Hm.
  by destruct (declaresResources _ _ _).
Qed.

End ResourcesText.

Lemma processPodSpec_resources_stored_witness :
  exists values pod',
    processPodSpec strcase.ToLowerCamel "KUBERNETES_CLUSTER_DOMAIN"
      "kubernetesClusterDomain" "web" sampleMeta
      (samplePod [resourcefulContainer; sampleContainer "sidecar" "busybox:1"])
    = Ok (values, pod')
    /\ (forall k q, In (k, q) (c_Requests resourcefulContainer) ->
          render values
            ["web"; strcase.ToLowerCamel (c_Name resourcefulContainer);
             "resources"; "requests"; k]
          = Some (SString q))
    /\ (forall k q, In (k, q) (c_Limits resourcefulContainer) ->
          render values
            ["web"; strcase.ToLowerCamel (c_Name resourcefulContainer);
             "resources"; "limits"; k]
          = Some (SString q)).
Proof.
  eexists _, _. split; [vm_compute; reflexivity|].
  eapply (processPodSpec_resources_stored strcase.ToLowerCamel "KUBERNETES_CLUSTER_DOMAIN"
            "kubernetesClusterDomain" "web" sampleMeta
            (samplePod [resourcefulContainer; sampleContainer "sidecar" "busybox:1"])
            _ _ [] resourcefulContainer [sampleContainer "sidecar" "busybox:1"]).
  - vm_compute. reflexivity.
  - reflexivity.
  - repeat constructor. by vm_compute.
  - apply NoDup_singleton.
  - apply NoDup_singleton.
Defined.

Lemma templateContainersResources_placeholders_witness :
  exists podValues pod',
    processPodSpec strcase.ToLowerCamel "KUBERNETES_CLUSTER_DOMAIN"
      "kubernetesClusterDomain" "web" sampleMeta
      (samplePod [resourcefulContainer; sampleContainer "sidecar" "busybox:1"])
    = Ok (podValues, pod')
    /\ templateContainersResources strcase.ToLowerCamel (fun _ _ => "accessor error")
         "web" podValues [sampleContainerValue "redis"; sampleContainerValue "sidecar"]
       = Ok [VMap [("name", VScalar (SString "redis"));
                   ("image", VScalar (SString "..."));
                   ("resources",
                    VScalar (SString
                      "{{- toYaml .Values.web.redis.resources | nindent 10 }}"))];
             sampleContainerValue "sidecar"].
Proof.
  eexists _, _. split; [vm_compute; reflexivity|].
  etrans.
  - eapply (templateContainersResources_placeholders strcase.ToLowerCamel
              "KUBERNETES_CLUSTER_DOMAIN" "kubernetesClusterDomain"
              (fun _ _ => "accessor error") "web" sampleMeta
              (samplePod [resourcefulContainer; sampleContainer "sidecar" "busybox:1"])).
    + vm_compute. reflexivity.
    + repeat constructor; eexists; split; reflexivity.
    + reflexivity.
  - vm_compute. reflexivity.
Defined.

(** ** ConfigMap: where the values are stored *)

Lemma leavesAt_empty P : leavesAt P ∅.
Proof.
  intros p s H. destruct p as [|f p]; [done|]. by rewrite lookup_path_empty in H.
Qed.

Lemma leavesAt_impl (P Q : list string -> Prop) values :
  (forall p, P p -> Q p) -> leavesAt P values -> leavesAt Q values.
Proof. intros HPQ H p s Hp. eauto. Qed.

Section Namespace.

Variable ToLowerCamel : string -> string.
Variable yaml_Unmarshal : string -> result (list (string * value)).
Variable yaml_Marshal : list (string * value) -> result string.

#[local] Abbreviation tryAdd5 := (tryAdd ToLowerCamel).
#[local] Abbreviation norm5 := (toCamelCase ToLowerCamel).

Lemma tryAdd_leavesAt P values op :
  leavesAt P values -> P (norm5 (fst op)) -> leavesAt P (tryAdd5 values op).
Proof.
  intros Hvalues Hop p s Hp. rewrite tryAdd_tryset in Hp. unfold tryset_at in Hp.
  destruct (SetNestedField_at [] values _ _) as [values'|e] eqn:E; [|eauto].
  destruct (SetNestedField_leaves _ _ _ _ _ _ _ E Hp) as [[-> _]|Hold]; eauto.
Qed.

Lemma fold_tryAdd_leavesAt P ops values :
  leavesAt P values -> Forall (fun op => P (norm5 (fst op))) ops ->
  leavesAt P (fold_left tryAdd5 ops values).
Proof.
  revert values. induction ops as [|op ops IH]; intros values Hvalues Hops; [done|].
  apply Forall_cons in Hops as [Hop Hops]. simpl. apply IH; [|done].
  by apply tryAdd_leavesAt.
Qed.

(** Every insertion of [parseConfig] extends the path it was given. *)
Lemma adds_entry_extends v :
  forall k path,
    Forall (fun op => path `prefix_of` fst op) (adds_entry k v path).
Proof.
  induction v as [s|l|t IH|t|] using value_nested_ind; intros k path;
    try (by apply Forall_nil).
  - simpl. destruct (isDiscriminator k); [by apply Forall_nil|].
    apply Forall_cons. split; [|by apply Forall_nil].
    simpl. by apply prefix_app_r.
  - rewrite adds_entry_map. unfold adds.
    induction IH as [|[k' v'] t Hv _ IHt]; [by apply Forall_nil|].
    simpl. apply Forall_app. split; [|exact IHt].
    eapply Forall_impl; [apply (Hv k' (path ++ [k])%list)|].
    intros op Hop. etrans; [|exact Hop]. by apply prefix_app_r.
Qed.

Lemma adds_extends config path :
  Forall (fun op => path `prefix_of` fst op) (adds config path).
Proof.
  unfold adds. induction config as [|[k v] config IH]; [by apply Forall_nil|].
  simpl. apply Forall_app. split; [apply adds_entry_extends|exact IH].
Qed.

Lemma parseProperties_loop_leavesAt P lines path values res :
  leavesAt P values ->
  (forall more, P (norm5 (path ++ more))) ->
  leavesAt P (snd (parseProperties_loop ToLowerCamel lines path values res)).
Proof.
  intros Hvalues Hpath. revert values res Hvalues.
  induction lines as [|line lines IH]; intros values res Hvalues; [done|]. simpl.
  destruct (strings.Split line "=") as [|propName [|propVal [|]]]; try done.
  destruct (Add _ values _ _) as [r values'] eqn:Ea.
  assert (leavesAt P values') as Hvalues'.
  { rewrite <- (tryAdd_Add _ _ _ _ _ _ Ea). apply tryAdd_leavesAt; [done|apply Hpath]. }
  destruct r; [by apply IH|done].
Qed.

Lemma parseMapData_entry_leavesAt P key value configName values :
  leavesAt P values ->
  (forall more, P (norm5 ([configName; key] ++ more))) ->
  leavesAt P (snd (fst (parseMapData_entry ToLowerCamel yaml_Unmarshal yaml_Marshal
                          key value configName values))).
Proof.
  intros Hvalues HP. unfold parseMapData_entry.
  destruct (strings.HasSuffix key ".yaml" || strings.HasSuffix key ".yml").
  - unfold parseYaml. destruct (yaml_Unmarshal value) as [config|e]; [|done].
    pose proof (parseConfig_values ToLowerCamel config values [configName; key]) as Hv.
    destruct (parseConfig _ config values _) as [[config' values'] logs].
    simpl in Hv.
    assert (leavesAt P values') as Hvalues'.
    { rewrite Hv. apply fold_tryAdd_leavesAt; [done|].
      eapply Forall_impl; [apply adds_extends|]. intros op [more ->]. apply HP. }
    by destruct (yaml_Marshal config').
  - destruct (strings.HasSuffix key ".properties").
    + pose proof (parseProperties_loop_leavesAt P (propertyLines value)
                    [configName; key] values EmptyString Hvalues HP) as H.
      unfold parseProperties. fold (propertyLines value).
      by destruct (parseProperties_loop _ _ _ _ _) as [[|] ?].
    + destruct (Add _ values _ _) as [r values'] eqn:Ea.
      assert (leavesAt P values') as Hvalues'.
      { rewrite <- (tryAdd_Add _ _ _ _ _ _ Ea). apply tryAdd_leavesAt; [done|].
        apply (HP []). }
      by destruct r.
Qed.

Lemma parseMapData_loop_leavesAt data configName keys values :
  leavesAt (underKey ToLowerCamel configName keys) values ->
  (forall key, In key (map fst data) -> In key keys) ->
  leavesAt (underKey ToLowerCamel configName keys)
    (snd (fst (parseMapData_loop ToLowerCamel yaml_Unmarshal yaml_Marshal
                 data configName values))).
Proof.
  revert values. induction data as [|[key value] data IH]; intros values Hvalues Hkeys;
    [done|].
  cbn [parseMapData_loop].
  pose proof (parseMapData_entry_leavesAt _ key value configName values Hvalues) as H1.
  destruct (parseMapData_entry _ _ _ key value configName values)
    as [[value' values1] logs1].
  cbn [fst snd] in H1.
  assert (leavesAt (underKey ToLowerCamel configName keys) values1) as Hvalues1.
  { apply H1. intros more. exists key, (norm5 more). split; [|done].
    apply Hkeys. by left. }
  specialize (IH values1 Hvalues1 ltac:(intros k Hk; apply Hkeys; by right)).
  by destruct (parseMapData_loop _ _ _ data configName values1) as [[data' values2] logs2].
Qed.

(** X18: the values of a ConfigMap are kept under its name: every
    scalar [parseMapData] stores sits below the normalised name of the
    ConfigMap and the normalised name of one of the keys of its data,
    whatever the entries hold. *)
Theorem parseMapData_values_under_name data configName p s :
  lookup_path p (snd (fst (parseMapData ToLowerCamel yaml_Unmarshal yaml_Marshal
                             data configName)))
  = Some (Leaf s) ->
  exists key rest,
    In key (map fst data)
    /\ p = ToLowerCamel configName :: ToLowerCamel key :: rest.
Proof.
  intros Hp.
  eapply (parseMapData_loop_leavesAt data configName (map fst data) ∅);
    [apply leavesAt_empty|done|exact Hp].
Qed.

End Namespace.

Lemma parseMapData_values_under_name_witness :
  exists key rest,
    In key (map fst [("app.properties", "timeout=30" ++ NL); ("greeting", "hello")])
    /\ ["cfg"; "appProperties"; "timeout"]
       = strcase.ToLowerCamel "cfg" :: strcase.ToLowerCamel key :: rest.
Proof.
  apply (parseMapData_values_under_name strcase.ToLowerCamel sampleYaml sampleYamlOut
           [("app.properties", "timeout=30" ++ NL); ("greeting", "hello")] "cfg"
           ["cfg"; "appProperties"; "timeout"] (SString "30")).
  vm_compute. reflexivity.
Defined.

(** ** What Process returns *)

Section Outcomes.

Variable ToLowerCamel : string -> string.
Variable yaml_Unmarshal : string -> result (list (string * value)).
Variable yaml_Marshal : list (string * value) -> result string.
Variable yamlformat_Marshal : value -> nat -> result string.
Variable ProcessMetadata : Unstructured -> result (string * string).
Variable DomainEnv DomainKey : string.
Variable FromUnstructured : Unstructured -> result StatefulSet.
Variable ProcessObjMeta : AppMetadata -> Unstructured -> result string.
Variable GetName : Unstructured -> string.
Variable yamlformat_Indent : string -> nat -> string.
Variable marshalPodSpec : string -> Values -> PodSpec -> result string.

#[local] Abbreviation cmProcess :=
  (configMap_Process ToLowerCamel yaml_Unmarshal yaml_Marshal yamlformat_Marshal
     ProcessMetadata).
#[local] Abbreviation stProcess :=
  (statefulset_Process ToLowerCamel yamlformat_Marshal DomainEnv DomainKey
     FromUnstructured ProcessObjMeta GetName yamlformat_Indent marshalPodSpec).

(** X19: the three results of [Process] for a ConfigMap.  An object of
    another kind is passed over with nothing returned and nothing
    logged; an object of the kind is always taken, and comes back
    either with an error and no template or with a template and no
    error. *)
Theorem configMap_Process_outcome obj :
  (gvk obj <> configMapGVC -> cmProcess obj = skipped)
  /\ (gvk obj = configMapGVC ->
      (exists e l, cmProcess obj = rejected e l)
      \/ (exists r l, cmProcess obj = accepted r l)).
Proof.
  unfold configMap_Process. split; intros Hgvk.
  - by rewrite bool_decide_eq_false_2.
  - rewrite bool_decide_eq_true_2 by done. cbn [negb].
    destruct (ProcessMetadata obj) as [[name template]|e0]; [|left; eauto].
    destruct (appendImmutable _ obj template) as [t1|e1]; [|left; eauto].
    destruct (appendBinaryData _ obj t1) as [t2|e2]; [|left; eauto].
    destruct (NestedStringMap _ "data") as [data|]; [|right; eauto].
    destruct (parseMapData _ _ _ data name) as [[data' values] logs].
    destruct (yamlformat_Marshal _ 0); [right|left]; eauto.
Qed.

Lemma orReject_cases {A T : Type} (r : result A) (k : A -> outcome T) :
  (exists e, r = Err e /\ orReject r k = rejected e [])
  \/ (exists a, r = Ok a /\ orReject r k = k a).
Proof. destruct r; [right|left]; eauto. Qed.

(** On empty values the replica count can always be stored: only the
    marshaller can make [processReplicas] fail. *)
Lemma processReplicas_error name statefl e values' :
  processReplicas ToLowerCamel yamlformat_Marshal name statefl ∅ = (Err e, values') ->
  exists v n, yamlformat_Marshal v n = Err e.
Proof.
  unfold processReplicas. destruct (Replicas statefl) as [n|]; [|discriminate].
  destruct (Add_fresh ToLowerCamel (SInt n) name "replicas") as [ph ->].
  destruct (yamlformat_Marshal _ 2) eqn:E; [discriminate|].
  intros [= -> _]. eauto.
Qed.

(** X20: the errors of [Process] for a StatefulSet.  An error it
    returns comes from one of its steps, as that step gave it: the
    decoder (wrapped), the metadata, a marshaller call, the merge of the
    values, the step that writes the pod spec, or a container whose
    image holds no [:].  Storing a value is never the reason, and
    nothing is ever logged. *)
Theorem statefulset_Process_error_origin appMeta obj e :
  err (stProcess appMeta obj) = Some e ->
  logs (stProcess appMeta obj) = []
  /\ ((exists e0, FromUnstructured obj = Err e0
                  /\ e = errors_Wrap e0 "unable to cast to statefulset")
      \/ ProcessObjMeta appMeta obj = Err e
      \/ (exists v n, yamlformat_Marshal v n = Err e)
      \/ (exists statefl c,
            FromUnstructured obj = Ok statefl
            /\ In c (Containers (TemplateSpec statefl))
            /\ ~ imageOk c
            /\ e = "wrong image format: " ++ c_Image c)
      \/ (exists v values, Merge v values = Err e)
      \/ (exists nameCamel values pod, marshalPodSpec nameCamel values pod = Err e)).
Proof.
  unfold statefulset_Process.
  destruct (negb (bool_decide (gvk obj = statefulsetGVC))); [discriminate|].
  destruct (FromUnstructured obj) as [statefl|e0] eqn:Efrom;
    [|intros [= <-]; split; [done|]; left; eauto].
  destruct (ProcessObjMeta appMeta obj) as [meta|e1] eqn:Emeta;
    [|intros [= <-]; split; [done|]; right; left; eauto].
  cbn [orReject].
  destruct (processReplicas _ _ _ statefl ∅) as [[replicas|e2] values] eqn:Erep;
    [|intros [= <-]; split; [done|]; right; right; left;
      eapply processReplicas_error; exact Erep].
  cbn [orReject].
  destruct (yamlformat_Marshal (VMap [("matchLabels", _)]) 0) as [matchLabels|e3] eqn:E3;
    [|intros [= <-]; split; [done|]; right; right; left; eauto].
  cbn [orReject].
  match goal with
  | |- context [orReject ?r _] => destruct r as [matchExpr|e4] eqn:E4
  end.
  2:{ intros [= <-]. split; [done|]. right; right; left.
      destruct (MatchExpressions statefl); [eauto|discriminate]. }
  cbn [orReject].
  destruct (yamlformat_Marshal (ofStringMap _) 8) as [podLabels|e5] eqn:E5;
    [|intros [= <-]; split; [done|]; right; right; left; eauto].
  cbn [orReject].
  match goal with
  | |- context [orReject ?r _] => destruct r as [podAnnotations|e6] eqn:E6
  end.
  2:{ intros [= <-]. split; [done|]. right; right; left.
      destruct (TemplateAnnotations statefl) as [|a l]; [discriminate|].
      destruct (yamlformat_Marshal _ 6) eqn:E; [discriminate|].
      injection E6 as <-. eauto. }
  cbn [orReject].
  destruct (processPodSpec _ _ _ _ appMeta (TemplateSpec statefl))
    as [[podValues pod]|e7] eqn:Epod.
  2:{ intros [= <-]. split; [done|]. right; right; right; left.
      unfold processPodSpec in Epod.
      destruct (processContainers _ _ _ _ appMeta _ ∅) as [[cs' v0]|e'] eqn:E;
        [discriminate|].
      injection Epod as ->.
      destruct (processContainers_error _ _ _ _ _ _ _ _ (podShaped_empty _) E)
        as (pre & c & post & Hcs & _ & Hbad & ->).
      exists statefl, c. repeat split; try done.
      rewrite Hcs. apply in_or_app. right. by left. }
  cbn [orReject].
  destruct (Merge values podValues) as [merged|e8] eqn:Emerge;
    [|intros [= <-]; split; [done|]; do 4 right; left; eauto].
  cbn [orReject].
  destruct (marshalPodSpec _ merged _) as [spec|e9] eqn:Espec;
    [|intros [= <-]; split; [done|]; do 5 right; eauto].
  cbn [orReject].
  match goal with
  | |- context [orReject ?r _] => destruct r as [claims|e10] eqn:E10
  end.
  2:{ intros [= <-]. split; [done|]. right; right; left.
      destruct (VolumeClaimTemplates statefl) as [|a l]; [discriminate|].
      destruct (yamlformat_Marshal _ 2) eqn:E; [discriminate|].
      injection E10 as <-. eauto. }
  discriminate.
Qed.


End Outcomes.

Lemma configMap_Process_outcome_witness :
  configMap_Process strcase.ToLowerCamel sampleYaml sampleYamlOut quotingMarshal
    sampleMetadata sampleObj = skipped
  /\ ((exists e l,
         configMap_Process strcase.ToLowerCamel sampleYaml sampleYamlOut quotingMarshal
           sampleMetadata greetingConfigMap = rejected e l)
      \/ (exists r l,
            configMap_Process strcase.ToLowerCamel sampleYaml sampleYamlOut quotingMarshal
              sampleMetadata greetingConfigMap = accepted r l)).
Proof.
  split.
  - apply (configMap_Process_outcome strcase.ToLowerCamel sampleYaml sampleYamlOut
             quotingMarshal sampleMetadata sampleObj). discriminate.
  - apply (configMap_Process_outcome strcase.ToLowerCamel sampleYaml sampleYamlOut
             quotingMarshal sampleMetadata greetingConfigMap). reflexivity.
Defined.

Lemma statefulset_Process_error_origin_witness :
  logs (sampleProcess (sampleStatefulSet [sampleContainer "redis" "redis"] [])) = []
  /\ ((exists e0,
         Ok (sampleStatefulSet [sampleContainer "redis" "redis"] []) = Err e0
         /\ "wrong image format: redis" = errors_Wrap e0 "unable to cast to statefulset")
      \/ Ok "metadata: ..." = Err "wrong image format: redis"
      \/ (exists v n, sampleMarshal v n = Err "wrong image format: redis")
      \/ (exists statefl c,
            Ok (sampleStatefulSet [sampleContainer "redis" "redis"] []) = Ok statefl
            /\ In c (Containers (TemplateSpec statefl))
            /\ ~ imageOk c
            /\ "wrong image format: redis" = "wrong image format: " ++ c_Image c)
      \/ (exists v values, Merge v values = Err "wrong image format: redis")
      \/ (exists (nameCamel : string) (values : Values) (pod : PodSpec),
            Ok "containers: ..." = Err "wrong image format: redis")).
Proof.
  apply (statefulset_Process_error_origin strcase.ToLowerCamel sampleMarshal
           "KUBERNETES_CLUSTER_DOMAIN" "kubernetesClusterDomain"
           (fun _ => Ok (sampleStatefulSet [sampleContainer "redis" "redis"] []))
           (fun _ _ => Ok "metadata: ...") (fun _ => "redis")
           (fun text _ => text) (fun _ _ _ => Ok "containers: ...")
           sampleMeta sampleObj "wrong image format: redis").
  vm_compute. reflexivity.
Defined.


(** ** StatefulSet: the selector *)

Lemma blank_append a b : blank (a ++ b) = blank a && blank b.
Proof.
  induction a as [|c a IH]; [done|].
  change (String c a ++ b) with (String c (a ++ b)). simpl.
  by rewrite IH, andb_assoc.
Qed.

Lemma trimLeft_spec s :
  exists l, s = l ++ trimLeft s /\ blank l = true
            /\ match trimLeft s with
               | String c _ => inCutset c = false
               | EmptyString => True
               end.
Proof.
  induction s as [|c s (l & Hs & Hl & Hc)]; [by exists EmptyString|].
  simpl. destruct (inCutset c) eqn:Ec.
  - exists (String c l). split; [|split; [|done]].
    + change (String c l ++ trimLeft s) with (String c (l ++ trimLeft s)).
      by rewrite <- Hs.
    + simpl. by rewrite Ec.
  - by exists EmptyString.
Qed.

Lemma trimRight_spec s :
  exists r, s = trimRight s ++ r /\ blank r = true
            /\ (trimRight s = EmptyString
                \/ exists d, last_byte (trimRight s) = Some d /\ inCutset d = false).
Proof.
  induction s as [|c s (r & Hs & Hr & Hd)]; [exists EmptyString; eauto|].
  simpl. destruct (trimRight s) as [|d t] eqn:Et.
  - change (s = r) in Hs. subst r. destruct (inCutset c) eqn:Ec.
    + exists (String c s). split; [done|]. split; [|by left].
      simpl. by rewrite Ec, Hr.
    + exists s. split; [done|]. split; [done|]. right. exists c. by split.
  - exists r. split; [|split; [done|]].
    + change (String c (String d t) ++ r) with (String c (String d t ++ r)).
      by rewrite <- Hs.
    + right. destruct Hd as [|Hd]; [done|]. exact Hd.
Qed.

Lemma trimRight_head c s :
  inCutset c = false -> exists t, trimRight (String c s) = String c t.
Proof.
  intros Hc. simpl. destruct (trimRight s); [rewrite Hc|]; eauto.
Qed.

(** X22: the selector of a StatefulSet.  [strings.Trim] takes nothing
    but blanks and newlines from the two ends of the formatted text,
    and what is left, the text that is indented, is never empty and
    neither starts nor ends with a blank or a newline: with no match
    expressions the newline the format ends with is gone. *)
Theorem selector_trimmed matchLabels chartName matchExpr :
  let text := selectorTempl matchLabels chartName matchExpr in
  exists l r c d,
    text = l ++ Trim text ++ r
    /\ blank l = true /\ blank r = true
    /\ first_byte (Trim text) = Some c /\ inCutset c = false
    /\ last_byte (Trim text) = Some d /\ inCutset d = false.
Proof.
  intros text. unfold Trim.
  destruct (trimLeft_spec text) as (l & Hl & Hbl & Hc).
  destruct (trimRight_spec (trimLeft text)) as (r & Hr & Hbr & Hd).
  destruct (trimLeft text) as [|c rest] eqn:Et.
  - exfalso. rewrite append_nil_r in Hl. subst l.
    unfold text, selectorTempl in Hbl. rewrite blank_append in Hbl.
    apply andb_true_iff in Hbl as [_ Hbl]. simpl in Hbl. discriminate.
  - destruct (trimRight_head c rest Hc) as [t Ht].
    destruct Hd as [Hd|(d & Hd & Hcd)]; [by rewrite Ht in Hd|].
    exists l, r, c, d. repeat split; try done.
    + by rewrite <- Hr.
    + by rewrite Ht.
Qed.
